(** * trem-eew-analyze: attenuation model and station-file parser

  A shallow embedding of [PGA_PGV_ALL_114007.py]:
  - [haversine], [predict_pga], [predict_pgv], [get_predicted_intensity]
    (the attenuation model and the intensity classifier);
  - [parse_actual_epicenter] and [parse_station_data] (the header and
    station-record parser, with the big5 / cp950 fallback).

  Numbers.  Python floats are modelled by the real numbers [R]: rounding,
  overflow, infinities and NaN are outside the model.  The partial
  functions of the [math] module and of [**] keep their exceptions
  ([ValueError], [ZeroDivisionError]) through the result type [pyres].
  Over [R] the square roots of [haversine] are always defined; in
  floating point the rounded [a] can exceed 1 for nearly antipodal points
  and [math.sqrt] then raises.  The properties of the predictions
  therefore take the result of [haversine] as a hypothesis.

  Text.  A Python [str] is modelled by [string]; a non-ASCII character
  is carried as its UTF-8 bytes, which never collide with the ASCII
  delimiters the parser splits at.  Digits and blanks are the ASCII ones:
  the further Unicode digits and blanks that [\d], [str.strip] and
  [float] accept are outside the model. *)

From Stdlib Require Import Reals Lra Lia ZArith String Ascii List Bool.
From stdpp Require Import gmap strings.
Import ListNotations.

(** ** Results of Python computations *)

Module PyRes.

(** The exceptions the modelled code can raise.  [ComplexResult] is not a
    Python exception: it marks a power with negative base and fractional
    exponent, whose Python value is a [complex] and not a [float]. *)
Inductive exn : Type :=
| ValueError
| ZeroDivisionError
| KeyError
| UnicodeDecodeError
| OSError
| ComplexResult.

Inductive pyres (A : Type) : Type :=
| Ret (a : A)
| Raise (e : exn).

Arguments Ret {A} a.
Arguments Raise {A} e.

Definition bind {A B : Type} (m : pyres A) (k : A -> pyres B) : pyres B :=
  match m with
  | Ret a => k a
  | Raise e => Raise e
  end.

Definition returns {A : Type} (m : pyres A) : Prop := exists a, m = Ret a.
Definition raises {A : Type} (m : pyres A) : Prop := exists e, m = Raise e.

End PyRes.
Import PyRes.

Declare Scope py_scope.
Delimit Scope py_scope with py.
Notation "x <- m ;; k" := (bind m (fun x => k))
(at level 62, m at next level, right associativity) : py_scope.

(** ** The [math] module and the float operators, over [R] *)

Module PyMath.
Local Open Scope R_scope.

Definition Rltb (x y : R) : bool := if Rlt_dec x y then true else false.
Definition Rleb (x y : R) : bool := if Rle_dec x y then true else false.

(** [math.radians] *)
Definition radians (x : R) : R := x * (PI / 180).

(** [math.sqrt]: [ValueError] on a negative argument. *)
Definition py_sqrt (x : R) : pyres R :=
  if Rle_dec 0 x then Ret (sqrt x) else Raise ValueError.

(** [math.log10]: [ValueError] unless the argument is positive. *)
Definition py_log10 (x : R) : pyres R :=
  if Rlt_dec 0 x then Ret (ln x / ln 10) else Raise ValueError.

(** [math.atan2 y x], the angle of the point [(x, y)] in (-pi, pi]. *)
Definition py_atan2 (y x : R) : R :=
  match total_order_T x 0 with
  | inleft (left _) =>
      if Rle_dec 0 y then atan (y / x) + PI else atan (y / x) - PI
  | inleft (right _) =>
      match total_order_T y 0 with
      | inleft (left _) => - (PI / 2)
      | inleft (right _) => 0
      | inright _ => PI / 2
      end
  | inright _ => atan (y / x)
  end.

(** [x ** y] with a float exponent [y]. *)
Definition py_pow (x y : R) : pyres R :=
  match total_order_T x 0 with
  | inright _ => Ret (Rpower x y)
  | inleft (right _) =>
      match total_order_T y 0 with
      | inleft (left _) => Raise ZeroDivisionError
      | inleft (right _) => Ret 1
      | inright _ => Ret 0
      end
  | inleft (left _) => Raise ComplexResult
  end.

(** [max(a, b)] on two arguments: [b] when [b > a], otherwise [a]. *)
Definition py_max (a b : R) : R := if Rlt_dec a b then b else a.

End PyMath.
Import PyMath.

(** ** The attenuation model and the classifier *)

Module Attenuation.
Local Open Scope R_scope.
Local Open Scope py_scope.

Definition haversine (lon1 lat1 lon2 lat2 : R) : pyres R :=
  let R_km := 6371.0 in
  let lon1 := radians lon1 in
  let lat1 := radians lat1 in
  let lon2 := radians lon2 in
  let lat2 := radians lat2 in
  let dlon := lon2 - lon1 in
  let dlat := lat2 - lat1 in
  let a := sin (dlat / 2) ^ 2 + cos lat1 * cos lat2 * sin (dlon / 2) ^ 2 in
  sa <- py_sqrt a ;;
  sb <- py_sqrt (1 - a) ;;
  let c := 2 * py_atan2 sa sb in
  Ret (R_km * c).

Definition predict_pga (sta_lon sta_lat epi_lon epi_lat depth mag : R) : pyres R :=
  horizontal_dist <- haversine epi_lon epi_lat sta_lon sta_lat ;;
  dist <- py_sqrt (horizontal_dist ^ 2 + depth ^ 2) ;;
  p <- py_pow dist (- 1.607) ;;
  Ret (1.657 * exp (1.533 * mag) * p).

(** Lines 75 to 79 of [predict_pgv]: the locals [x] and [term]. *)
Definition predict_pgv_term (sta_lon sta_lat epi_lon epi_lat depth mag : R)
  : pyres (R * R) :=
  horizontal_dist <- haversine epi_lon epi_lat sta_lon sta_lat ;;
  p <- py_pow 10 (0.5 * mag - 1.85) ;;
  let long_term := p / 2.0 in
  s <- py_sqrt (depth ^ 2 + horizontal_dist ^ 2) ;;
  let hypo_dist := s - long_term in
  let x := py_max hypo_dist 3 in
  q <- py_pow 10 (0.5 * mag) ;;
  let term := x + 0.0028 * q in
  Ret (x, term).

Definition predict_pgv (sta_lon sta_lat epi_lon epi_lat depth mag : R) : pyres R :=
  locals <- predict_pgv_term sta_lon sta_lat epi_lon epi_lat depth mag ;;
  let (x, term) := locals in
  l <- py_log10 term ;;
  gpv600 <- py_pow 10 (0.58 * mag + 0.0038 * depth - 1.29 - l - 0.002 * x) ;;
  Ret (gpv600 * 1.31).

Definition get_predicted_intensity (pga pgv : R) : string :=
  if Rltb pga 0.8 then "0"
  else if Rltb pga 2.5 then "1"
  else if Rltb pga 8 then "2"
  else if Rltb pga 25 then "3"
  else if Rltb pga 80 then "4"
  else
    if Rltb pgv 15 then "4"
    else if Rleb 15 pgv && Rltb pgv 30 then "5-"
    else if Rleb 30 pgv && Rltb pgv 50 then "5+"
    else if Rleb 50 pgv && Rltb pgv 80 then "6-"
    else if Rleb 80 pgv && Rltb pgv 140 then "6+"
    else if Rleb 140 pgv then "7"
    else "?".

(** The codes of the intensity scale, in ascending order. *)
Definition intensity_codes : list string :=
  ["0"; "1"; "2"; "3"; "4"; "5-"; "5+"; "6-"; "6+"; "7"].

(** *** The model as the specification words it *)

(** Great-circle distance of the specification: the value of the
    haversine formula with Earth radius 6371.0 km. *)
Definition greatCircleDistanceKm (lon1 lat1 lon2 lat2 : R) : R :=
  let a := sin ((radians lat2 - radians lat1) / 2) ^ 2
           + cos (radians lat1) * cos (radians lat2)
             * sin ((radians lon2 - radians lon1) / 2) ^ 2 in
  6371.0 * (2 * py_atan2 (sqrt a) (sqrt (1 - a))).

Definition log10 (x : R) : R := ln x / ln 10.

(** Steps 2 to 7 of [predictedPGV], from the horizontal distance on. *)
Definition predictedPGV_spec (horizontalDist depthKm magnitude : R) : R :=
  let longTermCorrection := Rpower 10 (0.5 * magnitude - 1.85) / 2 in
  let hypoDist := sqrt (depthKm ^ 2 + horizontalDist ^ 2) - longTermCorrection in
  let x := Rmax hypoDist 3.0 in
  let term := x + 0.0028 * Rpower 10 (0.5 * magnitude) in
  let gpv600 :=
    Rpower 10 (0.58 * magnitude + 0.0038 * depthKm - 1.29 - log10 term - 0.002 * x) in
  gpv600 * 1.31.

(** Steps 2 to 5 of [predictedPGV]: the argument [term] of the logarithm. *)
Definition pgv_term (horizontalDist depthKm magnitude : R) : R :=
  let longTermCorrection := Rpower 10 (0.5 * magnitude - 1.85) / 2 in
  let hypoDist := sqrt (depthKm ^ 2 + horizontalDist ^ 2) - longTermCorrection in
  let x := Rmax hypoDist 3.0 in
  x + 0.0028 * Rpower 10 (0.5 * magnitude).

(** Steps 2 and 3 of [predictedPGA], from the horizontal distance on. *)
Definition slantDist (horizontalDist depthKm : R) : R :=
  sqrt (horizontalDist ^ 2 + depthKm ^ 2).

Definition predictedPGA_spec (horizontalDist depthKm magnitude : R) : R :=
  1.657 * exp (1.533 * magnitude) * Rpower (slantDist horizontalDist depthKm) (- 1.607).

End Attenuation.
Import Attenuation.

(** ** String operations of the parser *)

Module PyStr.
Local Open Scope char_scope.

(** The ASCII characters for which [str.isspace] holds; these are what
    [str.strip] and [float] remove at both ends. *)
Definition is_space (c : ascii) : bool :=
  match c with
  | "009" | "010" | "011" | "012" | "013"
  | "028" | "029" | "030" | "031" | " " => true
  | _ => false
  end.

Fixpoint lstrip (s : string) : string :=
  match s with
  | String c s' => if is_space c then lstrip s' else s
  | EmptyString => EmptyString
  end.

Fixpoint rstrip (s : string) : string :=
  match s with
  | String c s' =>
      match rstrip s' with
      | EmptyString => if is_space c then EmptyString else String c EmptyString
      | r => String c r
      end
  | EmptyString => EmptyString
  end.

(** [s.strip()] *)
Definition strip (s : string) : string := rstrip (lstrip s).

Fixpoint str_drop (n : nat) (s : string) : string :=
  match n, s with
  | S k, String _ s' => str_drop k s'
  | _, _ => s
  end.

Fixpoint take_while (p : ascii -> bool) (s : string) : string :=
  match s with
  | String c s' => if p c then String c (take_while p s') else EmptyString
  | EmptyString => EmptyString
  end.

(** [s.split(sep)] for a non-empty [sep], as its first part and the
    remaining parts; [skip] counts the characters of a separator just
    recognised that are still to be passed over. *)
Fixpoint split_from (sep : string) (skip : nat) (s : string) : string * list string :=
  match s with
  | EmptyString => (EmptyString, [])
  | String c s' =>
      match skip with
      | S k => split_from sep k s'
      | O =>
          if String.prefix sep s then
            let (p, ps) := split_from sep (String.length sep - 1) s' in
            (EmptyString, p :: ps)
          else
            let (p, ps) := split_from sep 0 s' in
            (String c p, ps)
      end
  end.

Definition split (sep : string) (s : string) : list string :=
  let (p, ps) := split_from sep 0 s in p :: ps.

(** [sub in s] *)
Fixpoint substring_in (sub s : string) : bool :=
  if String.prefix sub s then true
  else
    match s with
    | String _ s' => substring_in sub s'
    | EmptyString => false
    end.

(** [c in s] for a one-character [c]. *)
Fixpoint str_contains (c : ascii) (s : string) : bool :=
  match s with
  | String d s' => if Ascii.eqb c d then true else str_contains c s'
  | EmptyString => false
  end.

(** [s.split(c, 1)] unpacked into two targets, for an [s] that contains
    [c]: the text before the first [c] and the text after it. *)
Fixpoint split1 (c : ascii) (s : string) : string * string :=
  match s with
  | String d s' =>
      if Ascii.eqb c d then (EmptyString, s')
      else let (k, v) := split1 c s' in (String d k, v)
  | EmptyString => (EmptyString, EmptyString)
  end.

Definition lower (c : ascii) : ascii :=
  let n := N_of_ascii c in
  if (65 <=? n)%N && (n <=? 90)%N then ascii_of_N (n + 32) else c.

Fixpoint str_lower (s : string) : string :=
  match s with
  | String c s' => String (lower c) (str_lower s')
  | EmptyString => EmptyString
  end.

(** [\d] on ASCII text. *)
Definition is_digit (c : ascii) : bool :=
  let n := N_of_ascii c in (48 <=? n)%N && (n <=? 57)%N.

(** The character class [[\d\.]]. *)
Definition is_digit_or_dot (c : ascii) : bool := is_digit c || Ascii.eqb c ".".

(** The attempt of [re.match(label + "([\d\.]+)", s)] at the start of
    [s]: the group, the longest run of digits and dots after [label]. *)
Definition match_here (label s : string) : option string :=
  if String.prefix label s then
    match take_while is_digit_or_dot (str_drop (String.length label) s) with
    | EmptyString => None
    | tok => Some tok
    end
  else None.

(** [re.search(label + "([\d\.]+)", s)]: the group of the leftmost match. *)
Fixpoint re_search_number (label : string) (s : string) : option string :=
  match match_here label s with
  | Some tok => Some tok
  | None =>
      match s with
      | String _ s' => re_search_number label s'
      | EmptyString => None
      end
  end.

End PyStr.
Import PyStr.

(** ** The [float] constructor on strings *)

Module PyFloat.
Local Open Scope char_scope.

(** A parsed float: the decimal [(-1)^neg * digits * 10^exp10] before it
    is rounded to a binary64, an infinity, or a NaN. *)
Inductive pyfloat : Type :=
| FDec (neg : bool) (digits : N) (exp10 : Z)
| FInf (neg : bool)
| FNan.

Definition digit_val (c : ascii) : option N :=
  if is_digit c then Some (N_of_ascii c - 48)%N else None.

(** The rest of a [digitpart] after its first digit: [(["_"] digit)*]. *)
Fixpoint digitpart_tail (s : string) : list N * string :=
  match s with
  | String c s' =>
      match digit_val c with
      | Some d => let (ds, r) := digitpart_tail s' in (d :: ds, r)
      | None =>
          if Ascii.eqb c "_" then
            match s' with
            | String c2 s'' =>
                match digit_val c2 with
                | Some d => let (ds, r) := digitpart_tail s'' in (d :: ds, r)
                | None => ([], s)
                end
            | EmptyString => ([], s)
            end
          else ([], s)
      end
  | EmptyString => ([], s)
  end.

(** [digitpart ::= digit (["_"] digit)*] *)
Definition digitpart (s : string) : option (list N * string) :=
  match s with
  | String c s' =>
      match digit_val c with
      | Some d => let (ds, r) := digitpart_tail s' in Some (d :: ds, r)
      | None => None
      end
  | EmptyString => None
  end.

Definition digits_value (ds : list N) : N :=
  fold_left (fun acc d => (10 * acc + d)%N) ds 0%N.

(** [number ::= [digitpart] "." digitpart | digitpart ["."]]: the digits
    and the number of them after the point. *)
Definition number (s : string) : option (list N * nat * string) :=
  match digitpart s with
  | Some (ip, r) =>
      match r with
      | String "." r' =>
          match digitpart r' with
          | Some (fp, r'') => Some (ip ++ fp, List.length fp, r'')
          | None => Some (ip, O, r')
          end
      | _ => Some (ip, O, r)
      end
  | None =>
      match s with
      | String "." r' =>
          match digitpart r' with
          | Some (fp, r'') => Some (fp, List.length fp, r'')
          | None => None
          end
      | _ => None
      end
  end.

(** [exponent ::= ("e" | "E") [sign] digitpart], when one is present. *)
Definition exponent (s : string) : option (Z * string) :=
  match s with
  | EmptyString => Some (0%Z, EmptyString)
  | String c r =>
      if Ascii.eqb (lower c) "e" then
        let (neg, r1) :=
          match r with
          | String "+" r' => (false, r')
          | String "-" r' => (true, r')
          | _ => (false, r)
          end in
        match digitpart r1 with
        | Some (ds, r2) =>
            let e := Z.of_N (digits_value ds) in
            Some (if neg then (- e)%Z else e, r2)
        | None => None
        end
      else Some (0%Z, s)
  end.

(** [floatnumber ::= number [exponent]], to the end of the text. *)
Definition floatnumber (s : string) : option (N * Z) :=
  match number s with
  | Some (ds, nfrac, r) =>
      match exponent r with
      | Some (e, EmptyString) => Some (digits_value ds, (e - Z.of_nat nfrac)%Z)
      | _ => None
      end
  | None => None
  end.

(** The blanks [float] passes over at both ends of an ASCII text: those
    of C's [isspace]. *)
Definition is_c_space (c : ascii) : bool :=
  match c with
  | "009" | "010" | "011" | "012" | "013" | " " => true
  | _ => false
  end.

Fixpoint float_lstrip (s : string) : string :=
  match s with
  | String c s' => if is_c_space c then float_lstrip s' else s
  | EmptyString => EmptyString
  end.

Fixpoint float_rstrip (s : string) : string :=
  match s with
  | String c s' =>
      match float_rstrip s' with
      | EmptyString => if is_c_space c then EmptyString else String c EmptyString
      | r => String c r
      end
  | EmptyString => EmptyString
  end.

Definition float_strip (s : string) : string := float_rstrip (float_lstrip s).

(** The least decimal value that rounds to an infinity, 2^1024 - 2^970,
    half way between the largest binary64 and 2^1024. *)
Definition overflow_threshold : Z := (2 ^ 1024 - 2 ^ 970)%Z.

(** [digits * 10^exp10] rounds to an infinity. *)
Definition overflows (digits : N) (exp10 : Z) : bool :=
  match exp10 with
  | Z0 => (overflow_threshold <=? Z.of_N digits)%Z
  | Zpos p => (overflow_threshold <=? Z.of_N digits * Z.pow_pos 10 p)%Z
  | Zneg p => (overflow_threshold * Z.pow_pos 10 p <=? Z.of_N digits)%Z
  end.

(** [float(s)] for a string [s]: blanks are passed over at both ends,
    then [[sign] (floatnumber | "inf" | "infinity" | "nan")], the words in
    any letter case; anything else is a [ValueError].  A number too large
    for a binary64 is an infinity.  Digits are the ASCII digits. *)
Definition py_float (s : string) : pyres pyfloat :=
  let s := float_strip s in
  let (neg, body) :=
    match s with
    | String "+" r => (false, r)
    | String "-" r => (true, r)
    | _ => (false, s)
    end in
  let word := str_lower body in
  if String.eqb word "inf"%string || String.eqb word "infinity"%string
  then Ret (FInf neg)
  else if String.eqb word "nan"%string then Ret FNan
  else
    match floatnumber body with
    | Some (m, e) => Ret (if overflows m e then FInf neg else FDec neg m e)
    | None => Raise ValueError
    end.

(** The real number a finite parsed float stands for. *)
Definition pyfloat_R (f : pyfloat) : option R :=
  match f with
  | FDec neg m e =>
      let a := IZR (Z.of_N m) in
      let v := match e with
               | Z0 => a
               | Zpos p => (a * IZR (Z.pow_pos 10 p))%R
               | Zneg p => (a / IZR (Z.pow_pos 10 p))%R
               end in
      Some (if neg then (- v)%R else v)
  | _ => None
  end.

End PyFloat.
Import PyFloat.

(** ** The header and station-record parser *)

Module Parser.
Local Open Scope py_scope.

(** A value held in a station [dict]: the text of a field, or the float
    that replaced it. *)
Inductive pyval : Type :=
| VStr (s : string)
| VFloat (f : pyfloat).

(** [k in d] *)
Definition dict_mem (k : string) (d : gmap string pyval) : bool :=
  match d !! k with
  | Some _ => true
  | None => false
  end.

(** [d[k]] *)
Definition dict_get (d : gmap string pyval) (k : string) : pyres pyval :=
  match d !! k with
  | Some v => Ret v
  | None => Raise KeyError
  end.

(** [float(v)] *)
Definition float_of (v : pyval) : pyres pyfloat :=
  match v with
  | VStr s => py_float s
  | VFloat f => Ret f
  end.

Definition parse_actual_epicenter (header : string)
  : pyres (option (pyfloat * pyfloat)) :=
  let lon_match := re_search_number "Lon:" header in
  let lat_match := re_search_number "Lat:" header in
  match lon_match, lat_match with
  | Some lon_group, Some lat_group =>
      lon <- py_float lon_group ;;
      lat <- py_float lat_group ;;
      Ret (Some (lon, lat))
  | _, _ => Ret None
  end.

Definition required : list string :=
  ["Stacode"; "Stalon"; "Stalat"; "Int"; "PGA(SUM)"; "PGV(SUM)"]%string.

(** One turn of [for field in fields]. *)
Definition add_field (station : gmap string pyval) (field : string)
  : gmap string pyval :=
  let field := strip field in
  if str_contains "=" field then
    let (key, value) := split1 "=" field in
    <[strip key := VStr (strip value)]> station
  else station.

Definition read_fields (fields : list string) : gmap string pyval :=
  fold_left add_field fields ∅.

(** [station[key] = float(station[key])] *)
Definition to_float (key : string) (station : gmap string pyval)
  : pyres (gmap string pyval) :=
  v <- dict_get station key ;;
  f <- float_of v ;;
  Ret (<[key := VFloat f]> station).

(** The body of the [try] block. *)
Definition convert_numeric (station : gmap string pyval)
  : pyres (gmap string pyval) :=
  station <- to_float "Stalon" station ;;
  station <- to_float "Stalat" station ;;
  station <- to_float "PGA(SUM)" station ;;
  to_float "PGV(SUM)" station.

(** What the loop over the parts updates: the list [stations] and the
    diagnostics printed so far (the exception of each). *)
Record loop_state : Type := {
  stations : list (gmap string pyval);
  printed : list exn
}.

(** One turn of [for part in parts[1:]]. *)
Definition loop_body (st : loop_state) (part : string) : loop_state :=
  let seg := String.append "Stacode=" part in
  let fields := split "," seg in
  let station := read_fields fields in
  if forallb (fun k => dict_mem k station) required then
    match convert_numeric station with
    | Ret station =>
        {| stations := stations st ++ [station]; printed := printed st |}
    | Raise e =>
        {| stations := stations st; printed := printed st ++ [e] |}
    end
  else st.

(** Lines 41 to 64 of [parse_station_data]: from the decoded text to the
    header, the stations and the diagnostics printed on the way. *)
Definition parse_text (text : string)
  : string * list (gmap string pyval) * list exn :=
  let parts := split "Stacode=" text in
  let header := strip (hd EmptyString parts) in
  let st := fold_left loop_body (tl parts) {| stations := []; printed := [] |} in
  (header, stations st, printed st).

Inductive encoding : Type := big5 | cp950.

(** What the run does to the outside: the files it opens and the lines
    it prints. *)
Inductive event : Type :=
| Opened (filename : string) (enc : encoding)
| Printed (e : exn).

Section FileIO.
(** The bytes of the files that can be opened and read. *)
Variable fs : string -> option (list Byte.byte).
(** The text a read in that encoding makes of the bytes (decoding and
    newline translation), [None] when they are not valid in it. *)
Variable decode : encoding -> list Byte.byte -> option string.

(** [with open(filename, "r", encoding=enc) as f: text = f.read()] *)
Definition open_read (filename : string) (enc : encoding) : pyres string :=
  match fs filename with
  | None => Raise OSError
  | Some bytes =>
      match decode enc bytes with
      | Some text => Ret text
      | None => Raise UnicodeDecodeError
      end
  end.

(** Lines 34 to 39: the text, and the files opened to get it. *)
Definition read_input (filename : string) : pyres string * list event :=
  match open_read filename big5 with
  | Raise UnicodeDecodeError =>
      (open_read filename cp950, [Opened filename big5; Opened filename cp950])
  | r => (r, [Opened filename big5])
  end.

Definition parse_station_data (filename : string)
  : pyres (string * list (gmap string pyval)) * list event :=
  let (r, log) := read_input filename in
  match r with
  | Ret text =>
      let '(header, stations, out) := parse_text text in
      (Ret (header, stations), log ++ map Printed out)
  | Raise e => (Raise e, log)
  end.
End FileIO.

(** *** The parser as the specification words it *)

(** The station records of a text: the segments that begin at the
    station-code delimiter, in the order of the text. *)
Definition records (text : string) : list string :=
  map (String.append "Stacode=") (tl (split "Stacode=" text)).

(** The mapping from key to trimmed value of one record. *)
Definition record_fields (seg : string) : gmap string pyval :=
  read_fields (split "," seg).

Definition numeric_keys : list string :=
  ["Stalon"; "Stalat"; "PGA(SUM)"; "PGV(SUM)"]%string.

Definition has_key (d : gmap string pyval) (k : string) : bool :=
  bool_decide (is_Some (d !! k)).

(** The field [k] of [d] is present and reads as a float. *)
Definition parses_as_float (d : gmap string pyval) (k : string) : bool :=
  match d !! k with
  | Some v => match float_of v with Ret _ => true | Raise _ => false end
  | None => false
  end.

(** A record is usable when the six required keys are present and the
    four numeric fields parse as floats. *)
Definition usable (d : gmap string pyval) : bool :=
  forallb (has_key d) required && forallb (parses_as_float d) numeric_keys.

(** The accepted station of a usable record: its numeric fields as
    floats, the others as they are. *)
Definition numeric_field (k : string) (v : pyval) : pyval :=
  if bool_decide (k ∈ numeric_keys) then
    match float_of v with
    | Ret f => VFloat f
    | Raise _ => v
    end
  else v.

Definition accepted (d : gmap string pyval) : gmap string pyval :=
  map_imap (fun k v => Some (numeric_field k v)) d.

Definition accepted_stations (text : string) : list (gmap string pyval) :=
  map accepted (List.filter usable (map record_fields (records text))).


End Parser.
Import Parser.

(** ** The parser scenario of the specification *)

Module Scenario.
Local Open Scope string_scope.

Definition nl : string := String "010"%char EmptyString.

Definition record_A1 : string :=
  "Stacode=A1,Stalon=121.0,Stalat=23.5,Int=4級,PGA(SUM)=12.3,PGV(SUM)=5.1,".

Definition record_A2 : string :=
  "Stacode=A2,Stalon=bad,Stalat=24.0,Int=3級,PGA(SUM)=5,PGV(SUM)=2".

Definition scenario_text : string :=
  String.append "Header text Lon:120.57 Lat:23.23"
    (String.append nl (String.append record_A1 record_A2)).

Definition station_A1 : gmap string pyval :=
  list_to_map
    [("Stacode", VStr "A1");
     ("Stalon", VFloat (FDec false 1210 (-1)));
     ("Stalat", VFloat (FDec false 235 (-1)));
     ("Int", VStr "4級");
     ("PGA(SUM)", VFloat (FDec false 123 (-1)));
     ("PGV(SUM)", VFloat (FDec false 51 (-1)))].

End Scenario.
Import Scenario.

(** ** The display tables and the driver *)

Module Tables.
Local Open Scope string_scope.

(** [obs_intensity_map], lines 113 to 123: an observed label to its code
    and colour. *)
Definition obs_intensity_map : gmap string (string * string) :=
  list_to_map
    [("7級", ("7", "red"));
     ("6強", ("6+", "red"));
     ("6弱", ("6-", "red"));
     ("5強", ("5+", "red"));
     ("5弱", ("5-", "red"));
     ("4級", ("4", "green"));
     ("3級", ("3", "green"));
     ("2級", ("2", "blue"));
     ("1級", ("1", "black"))].

(** [pred_intensity_color], lines 124 to 136. *)
Definition pred_intensity_color : gmap string string :=
  list_to_map
    [("0", "black");
     ("1", "black");
     ("2", "blue");
     ("3", "green");
     ("4", "green");
     ("5-", "red");
     ("5+", "red");
     ("6-", "red");
     ("6+", "red");
     ("7", "red");
     ("?", "orange")].

(** [obs_intensity_map.get(obs_int, (obs_int, "black"))], line 200. *)
Definition observed_label (obs_int : string) : string * string :=
  match obs_intensity_map !! obs_int with
  | Some entry => entry
  | None => (obs_int, "black")
  end.

(** [pred_intensity_color.get(pred_int, "black")], line 224. *)
Definition predicted_color (pred_int : string) : string :=
  match pred_intensity_color !! pred_int with
  | Some color => color
  | None => "black"
  end.

(** The position of a code in the scale; 10 for a text that is no code. *)
Fixpoint index_of (code : string) (codes : list string) : nat :=
  match codes with
  | [] => O
  | c :: rest => if String.eqb c code then O else S (index_of code rest)
  end.

Definition intensity_rank (code : string) : nat := index_of code intensity_codes.

End Tables.
Import Tables.

Module Driver.
Local Open Scope R_scope.
Local Open Scope py_scope.

(** The body of the loop of lines 150 to 156 for a station at
    [(lon, lat)], its [Stalon] and [Stalat] as real numbers: the three
    derived fields [predicted_pga], [predicted_pgv] and
    [predicted_intensity]. *)
Definition predict_station (epi_lon epi_lat depth mag : R) (sta : R * R)
  : pyres (R * R * string) :=
  let (lon, lat) := sta in
  pga <- predict_pga lon lat epi_lon epi_lat depth mag ;;
  pgv <- predict_pgv lon lat epi_lon epi_lat depth mag ;;
  Ret (pga, pgv, get_predicted_intensity pga pgv).

(** [for sta in stations: ...], lines 150 to 156; the first exception ends
    the loop. *)
Fixpoint predict_all (epi_lon epi_lat depth mag : R) (stations : list (R * R))
  : pyres (list (R * R * string)) :=
  match stations with
  | [] => Ret []
  | sta :: rest =>
      fields <- predict_station epi_lon epi_lat depth mag sta ;;
      others <- predict_all epi_lon epi_lat depth mag rest ;;
      Ret (fields :: others)
  end.

(** The hypothesised event of [main], lines 147 to 149. *)
Definition main_epi_lon : R := 120.53.
Definition main_epi_lat : R := 23.28.
Definition main_depth : R := 10.0.
Definition main_mag : R := 6.4.

(** [x / y] on floats. *)
Definition py_div (x y : R) : pyres R :=
  if Req_dec_T y 0 then Raise ZeroDivisionError else Ret (x / y).

(** [((obs - pred) / pred) * 100], lines 162 and 165. *)
Definition error_percent (pred obs : R) : pyres R :=
  q <- py_div (obs - pred) pred ;;
  Ret (q * 100).

(** [[((obs - pred) / pred) * 100 for pred, obs in zip(preds, obss)]] *)
Fixpoint error_list (preds obss : list R) : pyres (list R) :=
  match preds, obss with
  | pred :: preds', obs :: obss' =>
      e <- error_percent pred obs ;;
      es <- error_list preds' obss' ;;
      Ret (e :: es)
  | _, _ => Ret []
  end.

(** [min(l)] on a list: [ValueError] on the empty list, otherwise the
    first smallest element. *)
Definition py_min_list (l : list R) : pyres R :=
  match l with
  | [] => Raise ValueError
  | x :: rest => Ret (fold_left (fun m y => if Rlt_dec y m then y else m) rest x)
  end.

(** [max(l)] on a list. *)
Definition py_max_list (l : list R) : pyres R :=
  match l with
  | [] => Raise ValueError
  | x :: rest => Ret (fold_left (fun m y => if Rlt_dec m y then y else m) rest x)
  end.

(** [min(a, b)] on two arguments: [b] when [b < a], otherwise [a]. *)
Definition py_min (a b : R) : R := if Rlt_dec b a then b else a.

(** Lines 173 and 174 (and 175 and 176): the bounds of the full-range
    plot. *)
Definition full_range (pred obs : list R) : pyres (R * R) :=
  m1 <- py_min_list pred ;;
  m2 <- py_min_list obs ;;
  let min_full := py_min m1 m2 in
  M1 <- py_max_list pred ;;
  M2 <- py_max_list obs ;;
  let max_full := py_max M1 M2 in
  Ret (min_full, max_full).

End Driver.
Import Driver.

(** ** Texts put together again *)

Module Joining.

(** The concatenation of a list of texts. *)
Fixpoint str_concat (l : list string) : string :=
  match l with
  | [] => EmptyString
  | s :: rest => String.append s (str_concat rest)
  end.

(** The last character of a text. *)
Fixpoint last_char (s : string) : option ascii :=
  match s with
  | EmptyString => None
  | String c EmptyString => Some c
  | String _ s' => last_char s'
  end.

Definition first_char (s : string) : option ascii :=
  match s with
  | EmptyString => None
  | String c _ => Some c
  end.

(** No blank at either end. *)
Definition trimmed (s : string) : Prop :=
  (forall c, first_char s = Some c -> is_space c = false)
  /\ (forall c, last_char s = Some c -> is_space c = false).

(** What the field loop keeps true of a station: trimmed keys, and text
    values that are trimmed too. *)
Definition fields_ok (d : gmap string pyval) : Prop :=
  forall k v, d !! k = Some v -> strip k = k /\ exists s, v = VStr s /\ strip s = s.


End Joining.
Import Joining.

(** ** Records and header tokens as the specification words them *)

Module RecordSpec.

(** One field of a record: a [key=value] pair, key and value trimmed; a
    field without "=" is no pair. *)
Definition field_pair (field : string) : option (string * string) :=
  let f := strip field in
  if str_contains "=" f then
    let (k, v) := split1 "=" f in Some (strip k, strip v)
  else None.

(** The pairs of a record, in the order of the text. *)
Definition record_pairs (seg : string) : list (string * string) :=
  omap field_pair (split "," seg).

(** The value of a key among pairs: that of the last pair with the key. *)
Fixpoint last_value (k : string) (pairs : list (string * string)) : option string :=
  match pairs with
  | [] => None
  | (k', v) :: rest =>
      match last_value k rest with
      | Some w => Some w
      | None => if String.eqb k' k then Some v else None
      end
  end.

Definition record_value (seg k : string) : option string :=
  last_value k (record_pairs seg).

(** The text parses as a float. *)
Definition is_float (v : string) : bool :=
  match py_float v with
  | Ret _ => true
  | Raise _ => false
  end.

Definition has_value (seg k : string) : bool :=
  match record_value seg k with
  | Some _ => true
  | None => false
  end.

Definition has_float (seg k : string) : bool :=
  match record_value seg k with
  | Some v => is_float v
  | None => false
  end.

(** All six required keys are present and the four numeric fields parse
    as floats. *)
Definition record_usable (seg : string) : bool :=
  forallb (has_value seg) required && forallb (has_float seg) numeric_keys.



(** The field [k] of the station of a usable record: the float of a
    numeric field, the text of any other. *)
Definition station_field (seg k : string) : option pyval :=
  match record_value seg k with
  | Some v =>
      if bool_decide (k ∈ numeric_keys) then
        match py_float v with
        | Ret f => Some (VFloat f)
        | Raise _ => Some (VStr v)
        end
      else Some (VStr v)
  | None => None
  end.

End RecordSpec.
Import RecordSpec.

Module HeaderSpec.




End HeaderSpec.
Import HeaderSpec.

(** * Properties *)

(** ** The attenuation model *)

Section AttenuationFacts.
Local Open Scope R_scope.

Lemma sin_sqr_bounds (x : R) : 0 <= sin x ^ 2 <= 1.
Proof.
  pose proof (sin2_cos2 x) as H. unfold Rsqr in H.
  pose proof (pow2_ge_0 (sin x)). pose proof (pow2_ge_0 (cos x)).
  split; nra.
Qed.

(** The quantity under the square roots of [haversine] lies in [0, 1],
    for arbitrary angles. *)
Lemma haversine_a_bounds (u v w : R) :
  0 <= sin ((v - u) / 2) ^ 2 + cos u * cos v * sin w ^ 2 <= 1.
Proof.
  pose proof (cos_2a_sin ((v - u) / 2)) as Hhalf.
  replace (2 * ((v - u) / 2)) with (v - u) in Hhalf by lra.
  rewrite cos_minus in Hhalf.
  pose proof (COS_bound (u + v)) as Hsum. rewrite cos_plus in Hsum.
  pose proof (sin_sqr_bounds w) as Hw.
  pose proof (sin_sqr_bounds ((v - u) / 2)) as Hp.
  set (S := sin ((v - u) / 2)) in *.
  set (s2 := sin w ^ 2) in *.
  set (C := cos u * cos v) in *.
  assert (HC : cos v * cos u = C) by (unfold C; ring).
  rewrite HC in Hhalf.
  set (T := sin v * sin u) in *.
  assert (HT : sin u * sin v = T) by (unfold T; ring).
  rewrite HT in Hsum.
  assert (HS : S ^ 2 = (1 - C - T) / 2) by nra.
  rewrite HS in *.
  split; nra.
Qed.

Lemma py_sqrt_nonneg (x : R) : 0 <= x -> py_sqrt x = Ret (sqrt x).
Proof. intros Hx. unfold py_sqrt. destruct (Rle_dec 0 x); [reflexivity | contradiction]. Qed.

Lemma py_pow_pos (x y : R) : 0 < x -> py_pow x y = Ret (Rpower x y).
Proof.
  intros Hx. unfold py_pow.
  destruct (total_order_T x 0) as [[Hlt | Heq] | Hgt]; [lra | lra | reflexivity].
Qed.

Lemma py_log10_pos (x : R) : 0 < x -> py_log10 x = Ret (log10 x).
Proof. intros Hx. unfold py_log10. destruct (Rlt_dec 0 x); [reflexivity | contradiction]. Qed.

Lemma py_max_Rmax (a b : R) : py_max a b = Rmax a b.
Proof.
  unfold py_max, Rmax. destruct (Rlt_dec a b), (Rle_dec a b); try reflexivity; lra.
Qed.

(** [haversine] never raises: it returns the great-circle distance. *)
Lemma haversine_returns (lon1 lat1 lon2 lat2 : R) :
  haversine lon1 lat1 lon2 lat2 = Ret (greatCircleDistanceKm lon1 lat1 lon2 lat2).
Proof.
  unfold haversine, greatCircleDistanceKm.
  pose proof (haversine_a_bounds (radians lat1) (radians lat2)
                ((radians lon2 - radians lon1) / 2)) as [H0 H1].
  cbv zeta. rewrite py_sqrt_nonneg by exact H0. cbn [bind].
  rewrite py_sqrt_nonneg by lra. cbn [bind]. reflexivity.
Qed.

Lemma py_atan2_nonneg (y x : R) : 0 <= y -> 0 <= x -> 0 <= py_atan2 y x.
Proof.
  intros Hy Hx. unfold py_atan2.
  destruct (total_order_T x 0) as [[Hlt | Heq] | Hgt]; [lra | |].
  - destruct (total_order_T y 0) as [[Hylt | Hyeq] | Hygt]; [lra | lra |].
    pose proof PI_RGT_0. lra.
  - destruct (Rle_lt_or_eq_dec 0 y Hy) as [Hpos | Hzero].
    + left. rewrite <- atan_0. apply atan_increasing.
      apply Rdiv_lt_0_compat; assumption.
    + subst y. unfold Rdiv. rewrite Rmult_0_l, atan_0. lra.
Qed.

Lemma greatCircleDistanceKm_nonneg (lon1 lat1 lon2 lat2 : R) :
  0 <= greatCircleDistanceKm lon1 lat1 lon2 lat2.
Proof.
  unfold greatCircleDistanceKm. cbv zeta.
  match goal with |- 0 <= _ * (2 * py_atan2 ?a ?b) =>
    pose proof (py_atan2_nonneg a b (sqrt_pos _) (sqrt_pos _)) end.
  nra.
Qed.

Lemma greatCircleDistanceKm_sym (lon1 lat1 lon2 lat2 : R) :
  greatCircleDistanceKm lon1 lat1 lon2 lat2 = greatCircleDistanceKm lon2 lat2 lon1 lat1.
Proof.
  unfold greatCircleDistanceKm. cbv zeta.
  assert (Hflip : forall p q : R, sin ((p - q) / 2) ^ 2 = sin ((q - p) / 2) ^ 2).
  { intros p q. replace ((p - q) / 2) with (- ((q - p) / 2)) by lra.
    rewrite sin_neg. ring. }
  rewrite (Hflip (radians lat2) (radians lat1)).
  rewrite (Hflip (radians lon2) (radians lon1)).
  rewrite (Rmult_comm (cos (radians lat1)) (cos (radians lat2))).
  reflexivity.
Qed.

Lemma greatCircleDistanceKm_same (lon lat : R) :
  greatCircleDistanceKm lon lat lon lat = 0.
Proof.
  unfold greatCircleDistanceKm. cbv zeta.
  replace ((radians lat - radians lat) / 2) with 0 by lra.
  replace ((radians lon - radians lon) / 2) with 0 by lra.
  rewrite sin_0.
  replace (0 ^ 2 + cos (radians lat) * cos (radians lat) * 0 ^ 2) with 0 by ring.
  rewrite Rminus_0_r, sqrt_0, sqrt_1.
  unfold py_atan2.
  destruct (total_order_T 1 0) as [[Hlt | Heq] | Hgt]; [lra | lra |].
  unfold Rdiv. rewrite Rmult_0_l, atan_0. ring.
Qed.

Lemma ln10_pos : 0 < ln 10.
Proof. rewrite <- ln_1. apply ln_increasing; lra. Qed.

Lemma ln_le_mono (x y : R) : 0 < x -> x <= y -> ln x <= ln y.
Proof.
  intros Hx [Hlt | Heq].
  - left. apply ln_increasing; assumption.
  - subst y. right. reflexivity.
Qed.

Lemma log10_le_mono (x y : R) : 0 < x -> x <= y -> log10 x <= log10 y.
Proof.
  intros Hx Hxy. unfold log10, Rdiv.
  apply Rmult_le_compat_r.
  - left. apply Rinv_0_lt_compat, ln10_pos.
  - apply ln_le_mono; assumption.
Qed.

Lemma exp_le_mono (x y : R) : x <= y -> exp x <= exp y.
Proof.
  intros [Hlt | Heq].
  - left. apply exp_increasing. exact Hlt.
  - subst y. right. reflexivity.
Qed.

(** A power with a negative exponent decreases in its positive base. *)
Lemma Rpower_neg_antitone (x y e : R) :
  0 < x -> x <= y -> e <= 0 -> Rpower y e <= Rpower x e.
Proof.
  intros Hx Hxy He. unfold Rpower. apply exp_le_mono.
  pose proof (ln_le_mono x y Hx Hxy). nra.
Qed.

Lemma slantDist_nonneg (h depth : R) : 0 <= slantDist h depth.
Proof. unfold slantDist. apply sqrt_pos. Qed.

Lemma slantDist_mono (h1 h2 depth : R) :
  0 <= h1 -> h1 <= h2 -> slantDist h1 depth <= slantDist h2 depth.
Proof.
  intros H0 H12. unfold slantDist. apply sqrt_le_1_alt. nra.
Qed.

Lemma slantDist_zero (h depth : R) :
  slantDist h depth = 0 <-> h = 0 /\ depth = 0.
Proof.
  unfold slantDist. split.
  - intros Hs. apply sqrt_eq_0 in Hs; [| nra].
    pose proof (pow2_ge_0 h). pose proof (pow2_ge_0 depth).
    split; nra.
  - intros [-> ->]. replace (0 ^ 2 + 0 ^ 2) with 0 by ring. apply sqrt_0.
Qed.

(** [predict_pga] in terms of the slant distance: the formula where the
    distance is positive, [ZeroDivisionError] where it is zero. *)
Lemma predict_pga_cases (sta_lon sta_lat epi_lon epi_lat depth mag : R) :
  let h := greatCircleDistanceKm epi_lon epi_lat sta_lon sta_lat in
  predict_pga sta_lon sta_lat epi_lon epi_lat depth mag =
    if Rlt_dec 0 (slantDist h depth)
    then Ret (predictedPGA_spec h depth mag)
    else Raise ZeroDivisionError.
Proof.
  intros h. unfold predict_pga. rewrite haversine_returns. cbn [bind]. fold h.
  pose proof (pow2_ge_0 h). pose proof (pow2_ge_0 depth).
  rewrite py_sqrt_nonneg by nra. cbn [bind].
  fold (slantDist h depth).
  pose proof (slantDist_nonneg h depth) as Hs.
  destruct (Rlt_dec 0 (slantDist h depth)) as [Hpos | Hnpos].
  - rewrite py_pow_pos by exact Hpos. reflexivity.
  - assert (Hz : slantDist h depth = 0) by lra.
    rewrite Hz. unfold py_pow.
    destruct (total_order_T 0 0) as [[Hlt | Heq] | Hgt]; [lra | | lra].
    destruct (total_order_T (- 1.607) 0) as [[Hlt | Heq'] | Hgt]; [reflexivity | lra | lra].
Qed.

Lemma Rpower10_pos (y : R) : 0 < Rpower 10 y.
Proof. unfold Rpower. apply exp_pos. Qed.

Lemma pgv_term_lower (h depth mag : R) : 3 < pgv_term h depth mag.
Proof.
  unfold pgv_term. cbv zeta.
  pose proof (Rpower10_pos (0.5 * mag)).
  match goal with |- _ < Rmax ?a ?b + _ => pose proof (Rmax_r a b) end.
  lra.
Qed.

(** The locals of [predict_pgv] are always computed. *)
Lemma predict_pgv_term_returns (sta_lon sta_lat epi_lon epi_lat depth mag : R) :
  let h := greatCircleDistanceKm epi_lon epi_lat sta_lon sta_lat in
  predict_pgv_term sta_lon sta_lat epi_lon epi_lat depth mag =
    Ret (Rmax (sqrt (depth ^ 2 + h ^ 2) - Rpower 10 (0.5 * mag - 1.85) / 2) 3.0,
         pgv_term h depth mag).
Proof.
  intros h. unfold predict_pgv_term. rewrite haversine_returns. cbn [bind]. fold h.
  rewrite py_pow_pos by lra. cbn [bind].
  pose proof (pow2_ge_0 h). pose proof (pow2_ge_0 depth).
  rewrite py_sqrt_nonneg by nra. cbn [bind].
  rewrite py_pow_pos by lra. cbn [bind].
  rewrite py_max_Rmax. unfold pgv_term. cbv zeta.
  replace 2.0 with 2 by lra. replace 3.0 with 3 by lra. reflexivity.
Qed.

Lemma predict_pgv_returns (sta_lon sta_lat epi_lon epi_lat depth mag : R) :
  predict_pgv sta_lon sta_lat epi_lon epi_lat depth mag =
    Ret (predictedPGV_spec
           (greatCircleDistanceKm epi_lon epi_lat sta_lon sta_lat) depth mag).
Proof.
  unfold predict_pgv. rewrite predict_pgv_term_returns. cbn [bind].
  pose proof (pgv_term_lower (greatCircleDistanceKm epi_lon epi_lat sta_lon sta_lat)
                depth mag) as Hterm.
  rewrite py_log10_pos by lra. cbn [bind].
  rewrite py_pow_pos by lra. cbn [bind].
  unfold predictedPGV_spec, pgv_term. cbv zeta. reflexivity.
Qed.

(** The specification's PGV decreases with the horizontal distance. *)
Lemma predictedPGV_spec_antitone (h1 h2 depth mag : R) :
  0 <= h1 -> h1 <= h2 ->
  predictedPGV_spec h2 depth mag <= predictedPGV_spec h1 depth mag.
Proof.
  intros H0 H12.
  pose proof (pgv_term_lower h1 depth mag) as Ht1.
  unfold predictedPGV_spec, pgv_term in *. cbv zeta in *.
  set (L := Rpower 10 (0.5 * mag - 1.85) / 2) in *.
  set (c := 0.0028 * Rpower 10 (0.5 * mag)) in *.
  assert (Hs : sqrt (depth ^ 2 + h1 ^ 2) <= sqrt (depth ^ 2 + h2 ^ 2)).
  { apply sqrt_le_1_alt. nra. }
  assert (Hx : Rmax (sqrt (depth ^ 2 + h1 ^ 2) - L) 3.0
               <= Rmax (sqrt (depth ^ 2 + h2 ^ 2) - L) 3.0).
  { apply Rle_max_compat_r. lra. }
  set (x1 := Rmax (sqrt (depth ^ 2 + h1 ^ 2) - L) 3.0) in *.
  set (x2 := Rmax (sqrt (depth ^ 2 + h2 ^ 2) - L) 3.0) in *.
  assert (Hl : log10 (x1 + c) <= log10 (x2 + c)).
  { apply log10_le_mono; lra. }
  apply Rmult_le_compat_r; [lra |].
  apply Rle_Rpower; lra.
Qed.

(** The specification's PGA decreases with the horizontal distance. *)
Lemma predictedPGA_spec_antitone (h1 h2 depth mag : R) :
  0 <= h1 -> h1 <= h2 -> 0 < slantDist h1 depth ->
  predictedPGA_spec h2 depth mag <= predictedPGA_spec h1 depth mag.
Proof.
  intros H0 H12 Hpos. unfold predictedPGA_spec.
  apply Rmult_le_compat_l.
  - pose proof (exp_pos (1.533 * mag)). nra.
  - apply Rpower_neg_antitone; [exact Hpos | | lra].
    apply slantDist_mono; assumption.
Qed.

End AttenuationFacts.

Section AttenuationClaims.
Local Open Scope R_scope.

Ltac classify :=
  unfold get_predicted_intensity, Rltb, Rleb;
  repeat match goal with
    | |- context [Rlt_dec ?a ?b] => destruct (Rlt_dec a b); try lra
    | |- context [Rle_dec ?a ?b] => destruct (Rle_dec a b); try lra
    end;
  cbn [andb].

(** C1. [get_predicted_intensity] maps every pair of reals, in particular
    every pga >= 0 and pgv >= 0, to one of the ten codes of the scale and
    never to the sentinel "?".  A value on a threshold belongs to the
    upper bracket: pga 0.8 gives "1", 2.5 gives "2", 8 gives "3", 25 gives
    "4"; pga 80 is classified by the PGV branch, as every pga from 80 on
    is, and there pgv 15 gives "5-", 30 gives "5+", 50 gives "6-", 80
    gives "6+" and 140 gives "7". *)
Theorem get_predicted_intensity_total (pga pgv : R) :
  In (get_predicted_intensity pga pgv) intensity_codes
  /\ get_predicted_intensity pga pgv <> "?"%string
  /\ get_predicted_intensity 0.8 pgv = "1"%string
  /\ get_predicted_intensity 2.5 pgv = "2"%string
  /\ get_predicted_intensity 8 pgv = "3"%string
  /\ get_predicted_intensity 25 pgv = "4"%string
  /\ get_predicted_intensity 80 pgv = get_predicted_intensity (Rmax pga 80) pgv
  /\ get_predicted_intensity 80 0 = "4"%string
  /\ get_predicted_intensity (Rmax pga 80) 15 = "5-"%string
  /\ get_predicted_intensity (Rmax pga 80) 30 = "5+"%string
  /\ get_predicted_intensity (Rmax pga 80) 50 = "6-"%string
  /\ get_predicted_intensity (Rmax pga 80) 80 = "6+"%string
  /\ get_predicted_intensity (Rmax pga 80) 140 = "7"%string.
Proof.
  pose proof (Rmax_r pga 80) as Hmax.
  repeat split.
  - classify; cbn; tauto.
  - classify; discriminate.
  - classify; reflexivity.
  - classify; reflexivity.
  - classify; reflexivity.
  - classify; reflexivity.
  - generalize dependent (Rmax pga 80). intros m Hm. classify; reflexivity.
  - classify; reflexivity.
  - generalize dependent (Rmax pga 80). intros m Hm. classify; reflexivity.
  - generalize dependent (Rmax pga 80). intros m Hm. classify; reflexivity.
  - generalize dependent (Rmax pga 80). intros m Hm. classify; reflexivity.
  - generalize dependent (Rmax pga 80). intros m Hm. classify; reflexivity.
  - generalize dependent (Rmax pga 80). intros m Hm. classify; reflexivity.
Qed.

(** C2. For all real coordinates, depth and magnitude, with
    horizontalDist the distance [haversine] returns from the epicenter to
    the station, [predict_pgv] returns gpv600 * 1.31 with gpv600 =
    10^(0.58 mag + 0.0038 depth - 1.29 - log10 term - 0.002 x), where the
    long-term correction is 10^(0.5 mag - 1.85) / 2, hypoDist = sqrt
    (depth^2 + horizontalDist^2) - correction, x = max (hypoDist, 3.0) and
    term = x + 0.0028 * 10^(0.5 mag). *)
Theorem predict_pgv_formula
    (sta_lon sta_lat epi_lon epi_lat depth mag horizontalDist : R) :
  haversine epi_lon epi_lat sta_lon sta_lat = Ret horizontalDist ->
  predict_pgv sta_lon sta_lat epi_lon epi_lat depth mag
    = Ret (predictedPGV_spec horizontalDist depth mag).
Proof.
  intros Hd. rewrite haversine_returns in Hd. injection Hd as <-.
  apply predict_pgv_returns.
Qed.

Lemma predict_pgv_formula_witness :
  haversine 120.53 23.28 121 23.5 = Ret (greatCircleDistanceKm 120.53 23.28 121 23.5)
  /\ predict_pgv 121 23.5 120.53 23.28 10 6.4
     = Ret (predictedPGV_spec (greatCircleDistanceKm 120.53 23.28 121 23.5) 10 6.4).
Proof.
  pose proof (haversine_returns 120.53 23.28 121 23.5) as H.
  split; [exact H |].
  exact (predict_pgv_formula 121 23.5 120.53 23.28 10 6.4 _ H).
Defined.

(** C3, as amended. For all real coordinates, depth and magnitude, with
    horizontalDist the distance [haversine] returns from the epicenter to
    the station and slantDist = sqrt (horizontalDist^2 + depth^2),
    [predict_pga] returns 1.657 * exp (1.533 mag) * slantDist^(-1.607)
    whenever slantDist is positive; at slantDist = 0 it raises
    [ZeroDivisionError]. *)
Theorem predict_pga_formula
    (sta_lon sta_lat epi_lon epi_lat depth mag horizontalDist : R) :
  haversine epi_lon epi_lat sta_lon sta_lat = Ret horizontalDist ->
  predict_pga sta_lon sta_lat epi_lon epi_lat depth mag
    = if Rlt_dec 0 (slantDist horizontalDist depth)
      then Ret (predictedPGA_spec horizontalDist depth mag)
      else Raise ZeroDivisionError.
Proof.
  intros Hd. rewrite haversine_returns in Hd. injection Hd as <-.
  apply predict_pga_cases.
Qed.

Lemma predict_pga_formula_witness :
  haversine 120.53 23.28 121 23.5 = Ret (greatCircleDistanceKm 120.53 23.28 121 23.5)
  /\ predict_pga 121 23.5 120.53 23.28 10 6.4
     = if Rlt_dec 0 (slantDist (greatCircleDistanceKm 120.53 23.28 121 23.5) 10)
       then Ret (predictedPGA_spec (greatCircleDistanceKm 120.53 23.28 121 23.5) 10 6.4)
       else Raise ZeroDivisionError.
Proof.
  pose proof (haversine_returns 120.53 23.28 121 23.5) as H.
  split; [exact H |].
  exact (predict_pga_formula 121 23.5 120.53 23.28 10 6.4 _ H).
Defined.

(** C3 as stated fails for a station at the epicenter of an event of
    depth 0: the slant distance is 0 and the power raises. *)
Lemma predict_pga_at_source_raises :
  predict_pga 120.53 23.28 120.53 23.28 0 6.4 = Raise ZeroDivisionError
  /\ predict_pga 120.53 23.28 120.53 23.28 0 6.4
     <> Ret (predictedPGA_spec (greatCircleDistanceKm 120.53 23.28 120.53 23.28) 0 6.4).
Proof.
  assert (H : predict_pga 120.53 23.28 120.53 23.28 0 6.4 = Raise ZeroDivisionError).
  { rewrite predict_pga_cases. cbv zeta.
    rewrite greatCircleDistanceKm_same.
    assert (Hz : slantDist 0 0 = 0) by (apply slantDist_zero; split; reflexivity).
    rewrite Hz. destruct (Rlt_dec 0 0); [lra | reflexivity]. }
  split; [exact H | rewrite H; discriminate].
Qed.

(** C5. With epicenter, depth and magnitude fixed, a station whose
    horizontal distance is at least that of another station gets no
    larger a prediction: [predict_pgv] returns at both stations, the
    farther value at most the nearer one; and whenever [predict_pga]
    returns at the nearer station it returns at the farther one with a
    value at most the nearer one. [predict_pga] returns at the nearer
    station unless depth and its distance are both 0. *)
Theorem predicted_motion_decreasing
    (lon1 lat1 lon2 lat2 epi_lon epi_lat depth mag d1 d2 : R) :
  haversine epi_lon epi_lat lon1 lat1 = Ret d1 ->
  haversine epi_lon epi_lat lon2 lat2 = Ret d2 ->
  d1 <= d2 ->
  (forall v1, predict_pga lon1 lat1 epi_lon epi_lat depth mag = Ret v1 ->
     exists v2, predict_pga lon2 lat2 epi_lon epi_lat depth mag = Ret v2 /\ v2 <= v1)
  /\ (depth <> 0 \/ 0 < d1 -> returns (predict_pga lon1 lat1 epi_lon epi_lat depth mag))
  /\ (exists w1 w2,
        predict_pgv lon1 lat1 epi_lon epi_lat depth mag = Ret w1
        /\ predict_pgv lon2 lat2 epi_lon epi_lat depth mag = Ret w2
        /\ w2 <= w1).
Proof.
  intros Hd1 Hd2 Hle.
  rewrite haversine_returns in Hd1, Hd2.
  injection Hd1 as Hd1. injection Hd2 as Hd2.
  pose proof (greatCircleDistanceKm_nonneg epi_lon epi_lat lon1 lat1) as Hnn.
  rewrite Hd1 in Hnn.
  rewrite !predict_pga_cases, !predict_pgv_returns. cbv zeta.
  rewrite Hd1, Hd2.
  pose proof (slantDist_nonneg d1 depth) as Hs1.
  pose proof (slantDist_mono d1 d2 depth Hnn Hle) as Hs12.
  split; [| split].
  - intros v1 Hv1.
    destruct (Rlt_dec 0 (slantDist d1 depth)) as [Hpos | Hnpos]; [| discriminate].
    injection Hv1 as <-.
    destruct (Rlt_dec 0 (slantDist d2 depth)) as [Hpos2 | Hnpos2]; [| lra].
    eexists. split; [reflexivity |].
    apply predictedPGA_spec_antitone; assumption.
  - intros Hdom.
    destruct (Rlt_dec 0 (slantDist d1 depth)) as [Hpos | Hnpos].
    + eexists. reflexivity.
    + assert (Hz : slantDist d1 depth = 0) by lra.
      apply slantDist_zero in Hz. destruct Hz as [Hh Hdep]. lra.
  - do 2 eexists. split; [reflexivity |]. split; [reflexivity |].
    apply predictedPGV_spec_antitone; assumption.
Qed.

Lemma predicted_motion_decreasing_witness :
  haversine 120.53 23.28 120.53 23.28 = Ret 0
  /\ haversine 120.53 23.28 121 23.5 = Ret (greatCircleDistanceKm 120.53 23.28 121 23.5)
  /\ 0 <= greatCircleDistanceKm 120.53 23.28 121 23.5
  /\ (forall v1, predict_pga 120.53 23.28 120.53 23.28 10 6.4 = Ret v1 ->
        exists v2, predict_pga 121 23.5 120.53 23.28 10 6.4 = Ret v2 /\ v2 <= v1)
  /\ (10 <> 0 \/ 0 < 0 -> returns (predict_pga 120.53 23.28 120.53 23.28 10 6.4))
  /\ (exists w1 w2,
        predict_pgv 120.53 23.28 120.53 23.28 10 6.4 = Ret w1
        /\ predict_pgv 121 23.5 120.53 23.28 10 6.4 = Ret w2
        /\ w2 <= w1).
Proof.
  assert (H1 : haversine 120.53 23.28 120.53 23.28 = Ret 0).
  { rewrite haversine_returns, greatCircleDistanceKm_same. reflexivity. }
  pose proof (haversine_returns 120.53 23.28 121 23.5) as H2.
  pose proof (greatCircleDistanceKm_nonneg 120.53 23.28 121 23.5) as H3.
  split; [exact H1 |]. split; [exact H2 |]. split; [exact H3 |].
  exact (predicted_motion_decreasing
           120.53 23.28 121 23.5 120.53 23.28 10 6.4 0
           (greatCircleDistanceKm 120.53 23.28 121 23.5) H1 H2 H3).
Defined.

(** C6. [haversine] is symmetric in its two points, and it returns 0
    when the two points are the same. *)
Theorem haversine_symmetric (lon1 lat1 lon2 lat2 : R) :
  haversine lon1 lat1 lon2 lat2 = haversine lon2 lat2 lon1 lat1
  /\ haversine lon1 lat1 lon1 lat1 = Ret 0.
Proof.
  rewrite !haversine_returns. split.
  - f_equal. apply greatCircleDistanceKm_sym.
  - f_equal. apply greatCircleDistanceKm_same.
Qed.

(** C9. Inside [predict_pgv], whenever the locals [x] and [term] are
    computed, for whatever magnitude, x >= 3 and term >= x, so term >= 3 >
    0: [math.log10 term] returns, and [predict_pgv] returns a value and
    does not raise the [ValueError] of a logarithm outside its domain. *)
Theorem predict_pgv_log_defined
    (sta_lon sta_lat epi_lon epi_lat depth mag x term : R) :
  predict_pgv_term sta_lon sta_lat epi_lon epi_lat depth mag = Ret (x, term) ->
  3 <= x
  /\ x <= term
  /\ 3 <= term
  /\ 0 < term
  /\ py_log10 term = Ret (log10 term)
  /\ returns (predict_pgv sta_lon sta_lat epi_lon epi_lat depth mag)
  /\ predict_pgv sta_lon sta_lat epi_lon epi_lat depth mag <> Raise ValueError.
Proof.
  intros Hterm. rewrite predict_pgv_term_returns in Hterm. cbv zeta in Hterm.
  injection Hterm as <- <-.
  set (h := greatCircleDistanceKm epi_lon epi_lat sta_lon sta_lat).
  pose proof (pgv_term_lower h depth mag) as Hlow.
  assert (Hx : 3 <= Rmax (sqrt (depth ^ 2 + h ^ 2) - Rpower 10 (0.5 * mag - 1.85) / 2) 3.0).
  { replace 3.0 with 3 by lra. apply Rmax_r. }
  assert (Hxt : Rmax (sqrt (depth ^ 2 + h ^ 2) - Rpower 10 (0.5 * mag - 1.85) / 2) 3.0
                <= pgv_term h depth mag).
  { unfold pgv_term. cbv zeta. pose proof (Rpower10_pos (0.5 * mag)). lra. }
  split; [exact Hx |]. split; [exact Hxt |].
  split; [lra |]. split; [lra |].
  split; [apply py_log10_pos; lra |].
  rewrite predict_pgv_returns.
  split; [eexists; reflexivity | discriminate].
Qed.

Lemma predict_pgv_log_defined_witness :
  predict_pgv_term 121 23.5 120.53 23.28 10 6.4
    = Ret (Rmax (sqrt (10 ^ 2 + greatCircleDistanceKm 120.53 23.28 121 23.5 ^ 2)
                 - Rpower 10 (0.5 * 6.4 - 1.85) / 2) 3.0,
           pgv_term (greatCircleDistanceKm 120.53 23.28 121 23.5) 10 6.4)
  /\ 3 <= Rmax (sqrt (10 ^ 2 + greatCircleDistanceKm 120.53 23.28 121 23.5 ^ 2)
                - Rpower 10 (0.5 * 6.4 - 1.85) / 2) 3.0
  /\ Rmax (sqrt (10 ^ 2 + greatCircleDistanceKm 120.53 23.28 121 23.5 ^ 2)
           - Rpower 10 (0.5 * 6.4 - 1.85) / 2) 3.0
     <= pgv_term (greatCircleDistanceKm 120.53 23.28 121 23.5) 10 6.4
  /\ 3 <= pgv_term (greatCircleDistanceKm 120.53 23.28 121 23.5) 10 6.4
  /\ 0 < pgv_term (greatCircleDistanceKm 120.53 23.28 121 23.5) 10 6.4
  /\ py_log10 (pgv_term (greatCircleDistanceKm 120.53 23.28 121 23.5) 10 6.4)
     = Ret (log10 (pgv_term (greatCircleDistanceKm 120.53 23.28 121 23.5) 10 6.4))
  /\ returns (predict_pgv 121 23.5 120.53 23.28 10 6.4)
  /\ predict_pgv 121 23.5 120.53 23.28 10 6.4 <> Raise ValueError.
Proof.
  pose proof (predict_pgv_term_returns 121 23.5 120.53 23.28 10 6.4) as H.
  cbv zeta in H.
  split; [exact H |].
  exact (predict_pgv_log_defined 121 23.5 120.53 23.28 10 6.4 _ _ H).
Defined.

End AttenuationClaims.

(** ** The parser *)

Section ParserFacts.
Local Open Scope string_scope.

Lemma dict_mem_has_key (d : gmap string pyval) (k : string) :
  dict_mem k d = has_key d k.
Proof.
  unfold dict_mem, has_key. destruct (d !! k) as [v |] eqn:Hk.
  - symmetry. apply bool_decide_eq_true. eauto.
  - symmetry. apply bool_decide_eq_false. intros [v Hv]. discriminate.
Qed.

Lemma required_has_key (d : gmap string pyval) :
  forallb (fun k => dict_mem k d) required = forallb (has_key d) required.
Proof. cbn [forallb required]. rewrite !dict_mem_has_key. reflexivity. Qed.

Lemma parses_as_float_inv (d : gmap string pyval) (k : string) :
  parses_as_float d k = true ->
  exists v f, d !! k = Some v /\ float_of v = Ret f.
Proof.
  unfold parses_as_float. destruct (d !! k) as [v |]; [| discriminate].
  destruct (float_of v) as [f | e] eqn:Hf; [| discriminate].
  intros _. exists v, f. split; [reflexivity | exact Hf].
Qed.

Lemma to_float_ret (d : gmap string pyval) (k : string) (v : pyval) (f : pyfloat) :
  d !! k = Some v -> float_of v = Ret f ->
  to_float k d = Ret (<[k := VFloat f]> d).
Proof.
  intros Hk Hf. unfold to_float, dict_get. rewrite Hk. cbn [bind].
  rewrite Hf. reflexivity.
Qed.

Lemma to_float_raise (d : gmap string pyval) (k : string) :
  parses_as_float d k = false -> exists e, to_float k d = Raise e.
Proof.
  unfold parses_as_float, to_float, dict_get.
  destruct (d !! k) as [v |]; cbn [bind].
  - destruct (float_of v) as [f | e]; [discriminate |].
    intros _. exists e. reflexivity.
  - intros _. exists KeyError. reflexivity.
Qed.

Lemma numeric_field_float (k : string) (v : pyval) (f : pyfloat) :
  k ∈ numeric_keys -> float_of v = Ret f -> numeric_field k v = VFloat f.
Proof.
  intros Hk Hf. unfold numeric_field.
  rewrite bool_decide_eq_true_2 by exact Hk. rewrite Hf. reflexivity.
Qed.

Lemma numeric_field_other (k : string) (v : pyval) :
  k ∉ numeric_keys -> numeric_field k v = v.
Proof.
  intros Hk. unfold numeric_field.
  rewrite bool_decide_eq_false_2 by exact Hk. reflexivity.
Qed.

Ltac in_keys := unfold numeric_keys; rewrite !elem_of_cons; tauto.

(** On a record whose four numeric fields parse, the [try] block ends
    normally and leaves the accepted station. *)
Lemma convert_numeric_ret (d : gmap string pyval) :
  forallb (parses_as_float d) numeric_keys = true ->
  convert_numeric d = Ret (accepted d).
Proof.
  intros Hall. cbn [forallb numeric_keys] in Hall.
  repeat (apply andb_prop in Hall; destruct Hall as [?H Hall]).
  destruct (parses_as_float_inv d "Stalon" H) as (v1 & f1 & Hk1 & Hf1).
  destruct (parses_as_float_inv d "Stalat" H0) as (v2 & f2 & Hk2 & Hf2).
  destruct (parses_as_float_inv d "PGA(SUM)" H1) as (v3 & f3 & Hk3 & Hf3).
  destruct (parses_as_float_inv d "PGV(SUM)" H2) as (v4 & f4 & Hk4 & Hf4).
  unfold convert_numeric.
  rewrite (to_float_ret d _ v1 f1 Hk1 Hf1). cbn [bind].
  rewrite (to_float_ret _ _ v2 f2) by (rewrite ?lookup_insert_ne by discriminate; eassumption).
  cbn [bind].
  rewrite (to_float_ret _ _ v3 f3) by (rewrite ?lookup_insert_ne by discriminate; eassumption).
  cbn [bind].
  rewrite (to_float_ret _ _ v4 f4) by (rewrite ?lookup_insert_ne by discriminate; eassumption).
  f_equal. apply map_eq. intros i. unfold accepted.
  rewrite map_lookup_imap.
  destruct (decide (i = "PGV(SUM)")) as [-> | N4].
  { rewrite lookup_insert_eq, Hk4. cbn.
    rewrite (numeric_field_float _ v4 f4); [reflexivity | in_keys | exact Hf4]. }
  rewrite lookup_insert_ne by congruence.
  destruct (decide (i = "PGA(SUM)")) as [-> | N3].
  { rewrite lookup_insert_eq, Hk3. cbn.
    rewrite (numeric_field_float _ v3 f3); [reflexivity | in_keys | exact Hf3]. }
  rewrite lookup_insert_ne by congruence.
  destruct (decide (i = "Stalat")) as [-> | N2].
  { rewrite lookup_insert_eq, Hk2. cbn.
    rewrite (numeric_field_float _ v2 f2); [reflexivity | in_keys | exact Hf2]. }
  rewrite lookup_insert_ne by congruence.
  destruct (decide (i = "Stalon")) as [-> | N1].
  { rewrite lookup_insert_eq, Hk1. cbn.
    rewrite (numeric_field_float _ v1 f1); [reflexivity | in_keys | exact Hf1]. }
  rewrite lookup_insert_ne by congruence.
  destruct (d !! i) as [v |]; cbn; [| reflexivity].
  rewrite numeric_field_other; [reflexivity |].
  unfold numeric_keys. rewrite !elem_of_cons, elem_of_nil. tauto.
Qed.

(** On a record with a numeric field that does not parse, the [try]
    block raises. *)
Lemma convert_numeric_raise (d : gmap string pyval) :
  forallb (parses_as_float d) numeric_keys = false ->
  exists e, convert_numeric d = Raise e.
Proof.
  intros Hall. unfold convert_numeric.
  destruct (parses_as_float d "Stalon") eqn:P1.
  2:{ destruct (to_float_raise d _ P1) as [e He]. rewrite He. eauto. }
  destruct (parses_as_float_inv d _ P1) as (v1 & f1 & Hk1 & Hf1).
  rewrite (to_float_ret d _ v1 f1 Hk1 Hf1). cbn [bind].
  destruct (parses_as_float d "Stalat") eqn:P2.
  2:{ destruct (to_float_raise (<["Stalon" := VFloat f1]> d) "Stalat") as [e He].
      { unfold parses_as_float in *. rewrite lookup_insert_ne by discriminate. exact P2. }
      rewrite He. eauto. }
  destruct (parses_as_float_inv d _ P2) as (v2 & f2 & Hk2 & Hf2).
  rewrite (to_float_ret _ _ v2 f2) by (rewrite ?lookup_insert_ne by discriminate; eassumption).
  cbn [bind].
  destruct (parses_as_float d "PGA(SUM)") eqn:P3.
  2:{ destruct (to_float_raise (<["Stalat" := VFloat f2]> (<["Stalon" := VFloat f1]> d))
                  "PGA(SUM)") as [e He].
      { unfold parses_as_float in *. rewrite !lookup_insert_ne by discriminate. exact P3. }
      rewrite He. eauto. }
  destruct (parses_as_float_inv d _ P3) as (v3 & f3 & Hk3 & Hf3).
  rewrite (to_float_ret _ _ v3 f3) by (rewrite ?lookup_insert_ne by discriminate; eassumption).
  cbn [bind].
  destruct (parses_as_float d "PGV(SUM)") eqn:P4.
  { cbn [forallb numeric_keys] in Hall. rewrite P1, P2, P3, P4 in Hall. discriminate. }
  apply to_float_raise.
  unfold parses_as_float in *. rewrite !lookup_insert_ne by discriminate. exact P4.
Qed.

(** One turn of the loop appends the accepted station of a usable record
    and leaves the list as it is for any other record. *)
Lemma loop_body_stations (st : loop_state) (part : string) :
  stations (loop_body st part) =
    (stations st ++
      map accepted (List.filter usable [record_fields (String.append "Stacode=" part)]))%list.
Proof.
  unfold loop_body, record_fields. cbn [List.filter map].
  set (d := read_fields (split "," (String.append "Stacode=" part))).
  unfold usable. rewrite required_has_key.
  destruct (forallb (has_key d) required); cbn [andb].
  - destruct (forallb (parses_as_float d) numeric_keys) eqn:Hnum.
    + rewrite (convert_numeric_ret d Hnum). reflexivity.
    + destruct (convert_numeric_raise d Hnum) as [e He]. rewrite He.
      cbn. rewrite app_nil_r. reflexivity.
  - cbn. rewrite app_nil_r. reflexivity.
Qed.

Lemma parse_loop_stations (parts : list string) (st : loop_state) :
  stations (fold_left loop_body parts st) =
    (stations st ++
      map accepted
        (List.filter usable (map record_fields (map (String.append "Stacode=") parts))))%list.
Proof.
  revert st. induction parts as [| part parts IH]; intros st.
  - cbn. rewrite app_nil_r. reflexivity.
  - cbn [fold_left map]. rewrite IH, loop_body_stations.
    rewrite <- app_assoc. f_equal.
    cbn [List.filter].
    destruct (usable (record_fields (String.append "Stacode=" part))); reflexivity.
Qed.

End ParserFacts.

Section SearchFacts.
Local Open Scope string_scope.

Lemma append_cons (a : ascii) (l r : string) : String a l ++ r = String a (l ++ r).
Proof. reflexivity. Qed.

Lemma append_nil_l (r : string) : "" ++ r = r.
Proof. reflexivity. Qed.

Lemma prefix_append (l r : string) : String.prefix l (l ++ r) = true.
Proof.
  induction l as [| a l IH].
  - rewrite append_nil_l. destruct r; reflexivity.
  - rewrite append_cons. cbn. destruct (ascii_dec a a); [exact IH | contradiction].
Qed.

Lemma prefix_inv (l s : string) :
  String.prefix l s = true -> exists r, s = l ++ r.
Proof.
  revert s. induction l as [| a l IH]; intros s H.
  - exists s. reflexivity.
  - destruct s as [| b s]; cbn in H; [discriminate |].
    destruct (ascii_dec a b) as [-> | Hne]; [| discriminate].
    destruct (IH s H) as [r ->]. exists r. reflexivity.
Qed.

Lemma str_drop_append (l r : string) : str_drop (String.length l) (l ++ r) = r.
Proof.
  induction l as [| a l IH]; [destruct r; reflexivity |].
  rewrite append_cons. cbn. exact IH.
Qed.

Lemma re_search_number_unfold (label s : string) :
  re_search_number label s =
    match match_here label s with
    | Some tok => Some tok
    | None =>
        match s with
        | String _ s' => re_search_number label s'
        | EmptyString => None
        end
    end.
Proof. destruct s; reflexivity. Qed.





End SearchFacts.

(** ** Splitting and trimming *)

Section TextFacts.
Local Open Scope string_scope.

Lemma append_assoc (a b c : string) : (a ++ b) ++ c = a ++ (b ++ c).
Proof.
  induction a as [| x a IH]; [reflexivity |].
  rewrite !append_cons, IH. reflexivity.
Qed.

Lemma length_append (a b : string) :
  String.length (a ++ b) = (String.length a + String.length b)%nat.
Proof.
  induction a as [| x a IH]; [reflexivity |].
  rewrite append_cons. cbn [String.length]. rewrite IH. reflexivity.
Qed.

(** Passing over [k] characters of a separator is dropping them. *)
Lemma split_from_skip (sep : string) (k : nat) (s : string) :
  split_from sep k s = split_from sep 0 (str_drop k s).
Proof.
  revert k. induction s as [| c s IH]; intros k.
  - destruct k; reflexivity.
  - destruct k as [| k]; [reflexivity |].
    cbn [split_from str_drop]. apply IH.
Qed.

Lemma split_from_no_match (sep s : string) :
  substring_in sep s = false -> split_from sep 0 s = (s, []).
Proof.
  induction s as [| c s IH]; intros H; [reflexivity |].
  cbn [substring_in] in H. cbn [split_from].
  destruct (String.prefix sep (String c s)); [discriminate |].
  rewrite (IH H). reflexivity.
Qed.

(** The parts of a split, each but the first with the separator put back,
    make up the text. *)
Lemma split_from_join (sep : string) (n : nat) (s : string) :
  sep <> "" -> (String.length s <= n)%nat ->
  fst (split_from sep 0 s)
    ++ str_concat (map (String.append sep) (snd (split_from sep 0 s))) = s.
Proof.
  intros Hsep. revert s. induction n as [| n IH]; intros s Hn.
  - destruct s; [reflexivity | cbn in Hn; lia].
  - destruct s as [| c s]; [reflexivity |].
    cbn [split_from].
    destruct (String.prefix sep (String c s)) eqn:Hp.
    + destruct (prefix_inv _ _ Hp) as [r Hr].
      destruct sep as [| a sep']; [contradiction |].
      rewrite append_cons in Hr. injection Hr as <- ->.
      replace (String.length (String c sep') - 1)%nat with (String.length sep')
        by (cbn [String.length]; lia).
      rewrite split_from_skip, str_drop_append.
      assert (Hlen : (String.length r <= n)%nat).
      { cbn [String.length] in Hn. rewrite length_append in Hn. lia. }
      specialize (IH r Hlen).
      destruct (split_from (String c sep') 0 r) as [p ps]. cbn [fst snd] in *.
      cbn [map str_concat]. rewrite append_nil_l.
      rewrite append_assoc, IH. reflexivity.
    + assert (Hlen : (String.length s <= n)%nat) by (cbn in Hn; lia).
      specialize (IH s Hlen).
      destruct (split_from sep 0 s) as [p ps]. cbn [fst snd] in *.
      rewrite append_cons, IH. reflexivity.
Qed.

(** X16. A text without the delimiter "Stacode=", the empty text among
    them, has no record: the header is the whole text, trimmed, there is
    no station and nothing is printed. *)
Theorem parse_text_no_delimiter (text : string) :
  substring_in "Stacode=" text = false ->
  parse_text text = (strip text, [], []) /\ records text = [].
Proof.
  intros H. unfold parse_text, records, split.
  rewrite (split_from_no_match _ _ H). split; reflexivity.
Qed.

Lemma parse_text_no_delimiter_witness :
  substring_in "Stacode=" " Header Lon:120.57 Lat:23.23 " = false
  /\ parse_text " Header Lon:120.57 Lat:23.23 "
     = (strip " Header Lon:120.57 Lat:23.23 ", [], [])
  /\ records " Header Lon:120.57 Lat:23.23 " = [].
Proof.
  assert (H : substring_in "Stacode=" " Header Lon:120.57 Lat:23.23 " = false)
    by (vm_compute; reflexivity).
  split; [exact H |].
  exact (parse_text_no_delimiter " Header Lon:120.57 Lat:23.23 " H).
Defined.

(** X17. The segmentation loses nothing: the text before the first
    delimiter followed by the records, each beginning with "Stacode=",
    is the text. *)
Theorem records_partition_text (text : string) :
  hd EmptyString (split "Stacode=" text) ++ str_concat (records text) = text
  /\ Forall (fun seg => String.prefix "Stacode=" seg = true) (records text).
Proof.
  split.
  - pose proof (split_from_join "Stacode=" (String.length text) text) as H.
    unfold records, split.
    destruct (split_from "Stacode=" 0 text) as [p ps]. cbn [fst snd hd tl] in *.
    apply H; [discriminate | lia].
  - unfold records. apply Forall_forall. intros seg Hseg.
    apply list_elem_of_In, in_map_iff in Hseg. destruct Hseg as (part & <- & _).
    apply prefix_append.
Qed.

Lemma lstrip_first (s : string) (c : ascii) :
  first_char (lstrip s) = Some c -> is_space c = false.
Proof.
  induction s as [| d s IH]; [discriminate |].
  cbn [lstrip]. destruct (is_space d) eqn:Hd; [exact IH |].
  cbn. intros [= <-]. exact Hd.
Qed.

Lemma lstrip_id (s : string) :
  (forall c, first_char s = Some c -> is_space c = false) -> lstrip s = s.
Proof.
  destruct s as [| d s]; [reflexivity |].
  intros H. cbn [lstrip]. rewrite (H d eq_refl). reflexivity.
Qed.

Lemma rstrip_first (s : string) (c : ascii) :
  first_char (rstrip s) = Some c -> first_char s = Some c.
Proof.
  destruct s as [| d s]; [discriminate |].
  cbn [rstrip]. destruct (rstrip s); [destruct (is_space d); [discriminate |] |];
    cbn; intros H; exact H.
Qed.

Lemma rstrip_last (s : string) (c : ascii) :
  last_char (rstrip s) = Some c -> is_space c = false.
Proof.
  induction s as [| d s IH]; [discriminate |].
  cbn [rstrip]. destruct (rstrip s) as [| e r] eqn:Hr.
  - destruct (is_space d) eqn:Hd; [discriminate |].
    cbn. intros [= <-]. exact Hd.
  - intros H. apply IH. exact H.
Qed.

Lemma rstrip_idem (s : string) : rstrip (rstrip s) = rstrip s.
Proof.
  induction s as [| d s IH]; [reflexivity |].
  cbn [rstrip]. destruct (rstrip s) as [| e r] eqn:Hr.
  - destruct (is_space d) eqn:Hd; [reflexivity |].
    cbn [rstrip]. rewrite Hd. reflexivity.
  - change (rstrip (String d (String e r)))
      with (match rstrip (String e r) with
            | EmptyString => if is_space d then EmptyString else String d EmptyString
            | String a b => String d (String a b)
            end).
    rewrite IH. reflexivity.
Qed.

Lemma strip_trimmed (s : string) : trimmed (strip s).
Proof.
  unfold trimmed, strip. split.
  - intros c Hc. apply rstrip_first in Hc. exact (lstrip_first _ _ Hc).
  - intros c Hc. exact (rstrip_last _ _ Hc).
Qed.

Lemma strip_idem (s : string) : strip (strip s) = strip s.
Proof.
  unfold strip at 1. rewrite lstrip_id.
  - unfold strip. apply rstrip_idem.
  - apply strip_trimmed.
Qed.

End TextFacts.

(** ** Records and stations *)

Section RecordFacts.
Local Open Scope string_scope.

Lemma add_field_ok (d : gmap string pyval) (field : string) :
  fields_ok d -> fields_ok (add_field d field).
Proof.
  intros Hd. unfold add_field.
  destruct (str_contains "=" (strip field)); [| exact Hd].
  destruct (split1 "=" (strip field)) as [key value].
  intros k v Hk. destruct (decide (strip key = k)) as [<- | Hne].
  - rewrite lookup_insert_eq in Hk. injection Hk as <-.
    split; [apply strip_idem |]. eexists. split; [reflexivity | apply strip_idem].
  - rewrite lookup_insert_ne in Hk by exact Hne. exact (Hd k v Hk).
Qed.

Lemma fold_add_field_ok (fields : list string) (d : gmap string pyval) :
  fields_ok d -> fields_ok (fold_left add_field fields d).
Proof.
  revert d. induction fields as [| f fields IH]; intros d Hd; [exact Hd |].
  cbn [fold_left]. apply IH, add_field_ok, Hd.
Qed.

Lemma read_fields_ok (fields : list string) : fields_ok (read_fields fields).
Proof.
  apply fold_add_field_ok. intros k v Hk. rewrite lookup_empty in Hk. discriminate.
Qed.

Lemma accepted_lookup (d : gmap string pyval) (k : string) :
  accepted d !! k = numeric_field k <$> d !! k.
Proof.
  unfold accepted. rewrite map_lookup_imap. destruct (d !! k); reflexivity.
Qed.

Lemma has_key_inv (d : gmap string pyval) (k : string) :
  has_key d k = true -> exists v, d !! k = Some v.
Proof. unfold has_key. intros H. apply bool_decide_eq_true in H. exact H. Qed.

Lemma parsed_station_inv (text : string) (st : gmap string pyval) :
  In st (snd (fst (parse_text text))) ->
  exists seg, In seg (records text)
              /\ usable (record_fields seg) = true
              /\ st = accepted (record_fields seg).
Proof.
  unfold parse_text. cbn [fst snd]. rewrite parse_loop_stations. cbn [stations app].
  intros H. apply in_map_iff in H. destruct H as (d & <- & Hd).
  apply filter_In in Hd. destruct Hd as [Hd Hu].
  apply in_map_iff in Hd. destruct Hd as (seg & <- & Hseg).
  exists seg. unfold records. repeat split; assumption.
Qed.

Ltac not_numeric :=
  let H := fresh in
  unfold numeric_keys; rewrite !elem_of_cons, elem_of_nil;
  intros H; repeat destruct H as [H | H]; (discriminate H || contradiction).

(** X18. Every station the parser returns holds the four numeric fields
    as floats and the station code and the observed intensity as text, so
    that [main] can index them; every key is trimmed and every other
    field is kept as trimmed text. *)
Theorem parsed_station_shape (text : string) (st : gmap string pyval) :
  In st (snd (fst (parse_text text))) ->
  (forall k, In k numeric_keys -> exists f, st !! k = Some (VFloat f))
  /\ (exists code, st !! "Stacode" = Some (VStr code))
  /\ (exists label, st !! "Int" = Some (VStr label))
  /\ (forall k v, st !! k = Some v ->
        strip k = k /\ (~ In k numeric_keys -> exists s, v = VStr s /\ strip s = s)).
Proof.
  intros Hst. destruct (parsed_station_inv text st Hst) as (seg & _ & Hu & ->).
  set (d := record_fields seg) in *.
  assert (Hok : fields_ok d) by apply read_fields_ok.
  unfold usable in Hu. apply andb_prop in Hu. destruct Hu as [Hreq Hnum].
  split; [| split; [| split]].
  - intros k Hk.
    assert (Hp : parses_as_float d k = true).
    { rewrite forallb_forall in Hnum. apply Hnum. exact Hk. }
    destruct (parses_as_float_inv d k Hp) as (v & f & Hv & Hf).
    exists f. rewrite accepted_lookup, Hv. cbn.
    rewrite (numeric_field_float k v f); [reflexivity | | exact Hf].
    apply list_elem_of_In. exact Hk.
  - rewrite forallb_forall in Hreq.
    destruct (has_key_inv d "Stacode") as [v Hv]; [apply Hreq; cbn; tauto |].
    destruct (Hok _ _ Hv) as (_ & s & -> & _).
    exists s. rewrite accepted_lookup, Hv. cbn.
    rewrite numeric_field_other; [reflexivity | not_numeric].
  - rewrite forallb_forall in Hreq.
    destruct (has_key_inv d "Int") as [v Hv]; [apply Hreq; cbn; tauto |].
    destruct (Hok _ _ Hv) as (_ & s & -> & _).
    exists s. rewrite accepted_lookup, Hv. cbn.
    rewrite numeric_field_other; [reflexivity | not_numeric].
  - intros k v Hk. rewrite accepted_lookup in Hk.
    destruct (d !! k) as [v0 |] eqn:Hv0; [| discriminate].
    cbn in Hk. injection Hk as <-.
    destruct (Hok _ _ Hv0) as (Hkey & s & -> & Hs).
    split; [exact Hkey |]. intros Hnot.
    rewrite numeric_field_other; [eauto |].
    intros Hin. apply Hnot. apply list_elem_of_In. exact Hin.
Qed.

Lemma parsed_station_shape_witness :
  In station_A1 (snd (fst (parse_text scenario_text)))
  /\ (forall k, In k numeric_keys -> exists f, station_A1 !! k = Some (VFloat f))
  /\ (exists code, station_A1 !! "Stacode" = Some (VStr code))
  /\ (exists label, station_A1 !! "Int" = Some (VStr label))
  /\ (forall k v, station_A1 !! k = Some v ->
        strip k = k /\ (~ In k numeric_keys -> exists s, v = VStr s /\ strip s = s)).
Proof.
  assert (H : In station_A1 (snd (fst (parse_text scenario_text)))).
  { left. vm_compute. reflexivity. }
  split; [exact H |].
  exact (parsed_station_shape scenario_text station_A1 H).
Defined.

(** X22. The header the parser returns is trimmed: it neither begins nor
    ends with a blank, and trimming it again changes nothing. *)
Theorem parsed_header_trimmed (text : string) :
  strip (fst (fst (parse_text text))) = fst (fst (parse_text text))
  /\ trimmed (fst (fst (parse_text text))).
Proof.
  unfold parse_text. cbn [fst]. split; [apply strip_idem | apply strip_trimmed].
Qed.

End RecordFacts.

(** ** The field loop against the fields of the text *)

Section RecordSpecFacts.
Local Open Scope string_scope.

Lemma add_field_pair (d : gmap string pyval) (field : string) :
  add_field d field =
    match field_pair field with
    | Some (k, v) => <[k := VStr v]> d
    | None => d
    end.
Proof.
  unfold add_field, field_pair.
  destruct (str_contains "=" (strip field)); [| reflexivity].
  destruct (split1 "=" (strip field)). reflexivity.
Qed.

(** After the field loop a key holds the value of the last field that
    names it, and what it held before if no field does. *)
Lemma fold_add_field_lookup (fields : list string) (d : gmap string pyval) (k : string) :
  fold_left add_field fields d !! k =
    match last_value k (omap field_pair fields) with
    | Some v => Some (VStr v)
    | None => d !! k
    end.
Proof.
  revert d. induction fields as [| f fields IH]; intros d; [reflexivity |].
  cbn [fold_left]. rewrite IH, add_field_pair.
  change (omap field_pair (f :: fields))
    with (match field_pair f with
          | Some y => y :: omap field_pair fields
          | None => omap field_pair fields
          end).
  destruct (field_pair f) as [[k' v] |]; [| reflexivity].
  cbn [last_value].
  destruct (last_value k (omap field_pair fields)); [reflexivity |].
  destruct (String.eqb_spec k' k) as [-> | Hne].
  - apply lookup_insert_eq.
  - apply lookup_insert_ne. exact Hne.
Qed.

Lemma record_fields_lookup (seg k : string) :
  record_fields seg !! k = VStr <$> record_value seg k.
Proof.
  unfold record_fields, read_fields, record_value, record_pairs.
  rewrite fold_add_field_lookup, lookup_empty.
  destruct (last_value k (omap field_pair (split "," seg))); reflexivity.
Qed.

Lemma has_key_value (seg k : string) : has_key (record_fields seg) k = has_value seg k.
Proof.
  rewrite <- dict_mem_has_key. unfold dict_mem, has_value.
  rewrite record_fields_lookup. destruct (record_value seg k); reflexivity.
Qed.

Lemma parses_has_float (seg k : string) :
  parses_as_float (record_fields seg) k = has_float seg k.
Proof.
  unfold parses_as_float, has_float, is_float.
  rewrite record_fields_lookup. destruct (record_value seg k); reflexivity.
Qed.

Lemma forallb_pointwise {A : Type} (f g : A -> bool) (l : list A) :
  (forall x, f x = g x) -> forallb f l = forallb g l.
Proof.
  intros H. induction l as [| x l IH]; [reflexivity |].
  cbn [forallb]. rewrite H, IH. reflexivity.
Qed.

Lemma usable_record (seg : string) : usable (record_fields seg) = record_usable seg.
Proof.
  unfold usable, record_usable.
  rewrite (forallb_pointwise _ _ required (has_key_value seg)).
  rewrite (forallb_pointwise _ _ numeric_keys (parses_has_float seg)).
  reflexivity.
Qed.


Lemma accepted_field (seg k : string) :
  accepted (record_fields seg) !! k = station_field seg k.
Proof.
  rewrite accepted_lookup, record_fields_lookup. unfold station_field, numeric_field.
  destruct (record_value seg k) as [v |]; [| reflexivity]. cbn.
  destruct (bool_decide (k ∈ numeric_keys)); [| reflexivity].
  destruct (py_float v); reflexivity.
Qed.

Lemma filter_map_fields (p : gmap string pyval -> bool) (q : string -> bool)
    (l : list string) :
  (forall seg, p (record_fields seg) = q seg) ->
  List.filter p (map record_fields l) = map record_fields (List.filter q l).
Proof.
  intros H. induction l as [| seg l IH]; [reflexivity |].
  cbn [map List.filter]. rewrite H, IH. destruct (q seg); reflexivity.
Qed.

(** The accepted stations, record by record. *)
Lemma accepted_stations_fields (text : string) :
  Forall2 (fun seg st => forall k, st !! k = station_field seg k)
    (List.filter record_usable (records text)) (accepted_stations text).
Proof.
  unfold accepted_stations.
  rewrite (filter_map_fields usable record_usable _ usable_record), map_map.
  induction (List.filter record_usable (records text)) as [| seg l IH]; constructor.
  - intros k. apply accepted_field.
  - exact IH.
Qed.

End RecordSpecFacts.

Section RecordKeys.
Local Open Scope string_scope.

Lemma split_from_other (c : ascii) (s : string) :
  c <> ","%char ->
  split_from "," 0 (String c s)
    = (String c (fst (split_from "," 0 s)), snd (split_from "," 0 s)).
Proof.
  intros Hc. cbn [split_from String.prefix].
  destruct (ascii_dec "," c) as [Heq | _]; [congruence |].
  destruct (split_from "," 0 s). reflexivity.
Qed.

Lemma rstrip_cons (c : ascii) (s : string) :
  is_space c = false -> rstrip (String c s) = String c (rstrip s).
Proof.
  intros Hc. cbn [rstrip]. destruct (rstrip s); [rewrite Hc |]; reflexivity.
Qed.

Lemma fold_add_field_keeps (fields : list string) (d : gmap string pyval) (k : string) :
  (exists s, d !! k = Some (VStr s)) ->
  exists s, fold_left add_field fields d !! k = Some (VStr s).
Proof.
  revert d. induction fields as [| f fields IH]; intros d Hd; [exact Hd |].
  cbn [fold_left]. apply IH. unfold add_field.
  destruct (str_contains "=" (strip f)); [| exact Hd].
  destruct (split1 "=" (strip f)) as [key value].
  destruct (decide (strip key = k)) as [<- | Hne].
  - rewrite lookup_insert_eq. eauto.
  - rewrite lookup_insert_ne by exact Hne. exact Hd.
Qed.

(** The first field of a record is its station code. *)
Lemma record_first_field (part : string) :
  exists (q : string) (rest : list string),
    split "," ("Stacode=" ++ part) = ("Stacode=" ++ q) :: rest
    /\ add_field ∅ ("Stacode=" ++ q) = <["Stacode" := VStr (strip (rstrip q))]> ∅.
Proof.
  exists (fst (split_from "," 0 part)), (snd (split_from "," 0 part)). split.
  - unfold split.
    change ("Stacode=" ++ part)
      with (String "S" (String "t" (String "a" (String "c" (String "o"
             (String "d" (String "e" (String "=" part)))))))).
    rewrite !split_from_other by discriminate. reflexivity.
  - set (q := fst (split_from "," 0 part)).
    change ("Stacode=" ++ q)
      with (String "S" (String "t" (String "a" (String "c" (String "o"
             (String "d" (String "e" (String "=" q)))))))).
    unfold add_field, strip. cbn [lstrip is_space].
    rewrite !rstrip_cons by reflexivity.
    cbn [str_contains split1 Ascii.eqb Bool.eqb].
    reflexivity.
Qed.

(** X19. Every record has the key "Stacode", with a text value: the
    segment starts with it, and no later field can remove it. *)
Theorem record_has_stacode (text : string) :
  Forall (fun seg => exists code, record_fields seg !! "Stacode" = Some (VStr code))
    (records text).
Proof.
  unfold records. apply Forall_forall. intros seg Hseg.
  apply list_elem_of_In, in_map_iff in Hseg. destruct Hseg as (part & <- & _).
  unfold record_fields, read_fields.
  destruct (record_first_field part) as (q & rest & -> & Hfirst).
  cbn [fold_left]. rewrite Hfirst.
  apply fold_add_field_keeps. rewrite lookup_insert_eq. eauto.
Qed.








End RecordKeys.

(** ** The search against the token of a label *)

Section TokenFacts.
Local Open Scope string_scope.









End TokenFacts.

Section ParserClaims.
Local Open Scope string_scope.

Lemma filter_sublist {A : Type} (p : A -> bool) (l : list A) :
  sublist (List.filter p l) l.
Proof.
  induction l as [| x l IH]; cbn.
  - constructor.
  - destruct (p x); [apply sublist_skip | apply sublist_cons]; exact IH.
Qed.

Lemma read_input_parse (fs : string -> option (list Byte.byte))
    (decode : encoding -> list Byte.byte -> option string)
    (filename text : string) :
  fst (read_input fs decode filename) = Ret text ->
  fst (parse_station_data fs decode filename)
    = Ret (fst (fst (parse_text text)), snd (fst (parse_text text))).
Proof.
  unfold parse_station_data.
  destruct (read_input fs decode filename) as [r log]. cbn [fst].
  intros ->. destruct (parse_text text) as [[header sts] out]. reflexivity.
Qed.

(** C4. For every text, the stations [parse_station_data] returns are
    those of exactly the records (the segments that begin at "Stacode=")
    whose comma-separated key=value fields hold the six required keys and
    whose Stalon, Stalat, PGA(SUM) and PGV(SUM) values parse as floats, in
    the order of the text, each station holding for every key the last
    value the record gives it, as a float for the four numeric keys and as
    text otherwise; every other record is left out and the parse always
    returns. *)
Theorem parse_station_data_accepts (text : string) :
  exists (header : string) (out : list exn),
    parse_text text = (header, accepted_stations text, out)
    /\ header = strip (hd EmptyString (split "Stacode=" text))
    /\ Forall2 (fun seg st => forall k, st !! k = station_field seg k)
         (List.filter record_usable (records text)) (accepted_stations text)
    /\ sublist (List.filter record_usable (records text)) (records text)
    /\ (forall seg, In seg (List.filter record_usable (records text)) <->
                    In seg (records text) /\ record_usable seg = true)
    /\ (forall st : gmap string pyval,
          In st (accepted_stations text) <->
          exists seg, In seg (records text)
                      /\ record_usable seg = true
                      /\ forall k, st !! k = station_field seg k)
    /\ (forall fs decode filename,
          fst (read_input fs decode filename) = Ret text ->
          fst (parse_station_data fs decode filename)
            = Ret (header, accepted_stations text)).
Proof.
  assert (Hst : snd (fst (parse_text text)) = accepted_stations text).
  { unfold parse_text. cbn [fst snd]. rewrite parse_loop_stations. reflexivity. }
  eexists _, (snd (parse_text text)).
  split; [| split; [reflexivity |]].
  { rewrite <- Hst. unfold parse_text. cbn [fst snd]. reflexivity. }
  split; [apply accepted_stations_fields |].
  split; [apply filter_sublist |].
  split; [intros seg; apply filter_In |].
  split.
  - intros st. unfold accepted_stations.
    rewrite (filter_map_fields usable record_usable _ usable_record), map_map.
    rewrite in_map_iff. split.
    + intros (seg & <- & Hseg). apply filter_In in Hseg. destruct Hseg as [Hseg Hu].
      exists seg. split; [exact Hseg |]. split; [exact Hu |].
      intros k. apply accepted_field.
    + intros (seg & Hseg & Hu & Hk). exists seg. split.
      * apply map_eq. intros k. rewrite accepted_field, Hk. reflexivity.
      * apply filter_In. split; assumption.
  - intros fs decode filename Hread.
    rewrite (read_input_parse fs decode filename text Hread), Hst. reflexivity.
Qed.

(** C7. On the scenario text the parser returns the header "Header text
    Lon:120.57 Lat:23.23", which contains "Lon:120.57 Lat:23.23";
    [parse_actual_epicenter] reads the epicenter (120.57, 23.23) from
    it; exactly one station, A1, is accepted; and A2, which holds all
    required keys, is dropped because its Stalon "bad" is not a float
    (its other numeric fields are). *)
Theorem parser_scenario :
  parse_text scenario_text
    = ("Header text Lon:120.57 Lat:23.23", [station_A1], [ValueError])
  /\ substring_in "Lon:120.57 Lat:23.23" (fst (fst (parse_text scenario_text))) = true
  /\ parse_actual_epicenter "Header text Lon:120.57 Lat:23.23"
     = Ret (Some (FDec false 12057 (-2), FDec false 2323 (-2)))
  /\ pyfloat_R (FDec false 12057 (-2)) = Some 120.57%R
  /\ pyfloat_R (FDec false 2323 (-2)) = Some 23.23%R
  /\ station_A1 !! "Stacode" = Some (VStr "A1")
  /\ records scenario_text = [record_A1; record_A2]
  /\ usable (record_fields record_A1) = true
  /\ forallb (has_key (record_fields record_A2)) required = true
  /\ record_fields record_A2 !! "Stalon" = Some (VStr "bad")
  /\ py_float "bad" = Raise ValueError
  /\ forallb (parses_as_float (record_fields record_A2))
       ["Stalat"; "PGA(SUM)"; "PGV(SUM)"] = true
  /\ usable (record_fields record_A2) = false.
Proof.
  split; [vm_compute; reflexivity |].
  split; [vm_compute; reflexivity |].
  split; [vm_compute; reflexivity |].
  split; [cbn; f_equal; lra |].
  split; [cbn; f_equal; lra |].
  repeat split; vm_compute; reflexivity.
Qed.

(** C8. [parse_station_data] opens the file with big5 first; it opens it
    again with cp950 if and only if the first read raised
    [UnicodeDecodeError]; a successful big5 read is the text that is
    parsed, otherwise a successful cp950 read is; the run fails if and
    only if both reads fail, and then it returns no header and no
    stations and prints nothing. *)
Theorem parse_station_data_encoding_fallback
    (fs : string -> option (list Byte.byte))
    (decode : encoding -> list Byte.byte -> option string)
    (filename : string) :
  let first := open_read fs decode filename big5 in
  let second := open_read fs decode filename cp950 in
  let result := fst (parse_station_data fs decode filename) in
  let log := snd (parse_station_data fs decode filename) in
  hd_error log = Some (Opened filename big5)
  /\ (In (Opened filename cp950) log <-> first = Raise UnicodeDecodeError)
  /\ (forall text, first = Ret text ->
        result = Ret (fst (fst (parse_text text)), snd (fst (parse_text text))))
  /\ (forall text, first = Raise UnicodeDecodeError -> second = Ret text ->
        result = Ret (fst (fst (parse_text text)), snd (fst (parse_text text))))
  /\ (raises result <-> raises first /\ raises second)
  /\ (raises result ->
        (forall header sts, result <> Ret (header, sts))
        /\ (log = [Opened filename big5] \/ log = [Opened filename big5; Opened filename cp950])).
Proof.
  cbv zeta. unfold parse_station_data, read_input, open_read, raises.
  destruct (fs filename) as [bytes |].
  - destruct (decode big5 bytes) as [t1 |].
    + destruct (parse_text t1) as [[h1 s1] o1] eqn:Hp. cbn [fst snd hd_error app].
      split; [reflexivity |]. split.
      { split; [| discriminate]. intros [H | H]; [discriminate |].
        apply in_map_iff in H. destruct H as (e & He & _). discriminate. }
      split. { intros text [= <-]. rewrite Hp. reflexivity. }
      split. { intros text H. discriminate. }
      split. { split; [intros [e He] | intros [[e He] _]]; discriminate. }
      intros [e He]. discriminate.
    + destruct (decode cp950 bytes) as [t2 |].
      * destruct (parse_text t2) as [[h2 s2] o2] eqn:Hp. cbn [fst snd hd_error app].
        split; [reflexivity |]. split.
        { split; [reflexivity |]. intros _. right. left. reflexivity. }
        split. { intros text H. discriminate. }
        split. { intros text _ [= <-]. rewrite Hp. reflexivity. }
        split. { split; [intros [e He] | intros [_ [e He]]]; discriminate. }
        intros [e He]. discriminate.
      * cbn [fst snd hd_error].
        split; [reflexivity |]. split.
        { split; [reflexivity |]. intros _. right. left. reflexivity. }
        split. { intros text H. discriminate. }
        split. { intros text _ H. discriminate. }
        split. { split; [intros _; split |]; eauto. }
        intros _. split; [intros header sts; discriminate |]. right. reflexivity.
  - cbn [fst snd hd_error].
    split; [reflexivity |]. split.
    { split; [| discriminate]. intros [H | []]. discriminate. }
    split. { intros text H. discriminate. }
    split. { intros text H. discriminate. }
    split. { split; [intros _; split |]; eauto. }
    intros _. split; [intros header sts; discriminate |]. left. reflexivity.
Qed.




End ParserClaims.

(** * Further properties of the code *)

(** ** The epicenter of the header *)

Section EpicenterFacts.
Local Open Scope string_scope.

Lemma take_while_first (p : ascii -> bool) (s tok : string) :
  take_while p s = tok -> tok <> "" ->
  exists c t, tok = String c t /\ p c = true.
Proof.
  destruct s as [| c s]; cbn [take_while]; [intros <- H; contradiction |].
  destruct (p c) eqn:Hc; [| intros <- H; contradiction].
  intros <- _. eauto.
Qed.

Lemma match_here_first (label s tok : string) :
  match_here label s = Some tok ->
  exists c t, tok = String c t /\ is_digit_or_dot c = true.
Proof.
  unfold match_here. destruct (String.prefix label s); [| discriminate].
  destruct (take_while is_digit_or_dot (str_drop (String.length label) s))
    as [| c t] eqn:Htw; [discriminate |].
  intros [= <-]. apply (take_while_first _ _ _ Htw). discriminate.
Qed.

Lemma re_search_number_first (label s tok : string) :
  re_search_number label s = Some tok ->
  exists c t, tok = String c t /\ is_digit_or_dot c = true.
Proof.
  induction s as [| a s IH]; rewrite re_search_number_unfold.
  - destruct (match_here label "") as [t |] eqn:Hm; [| discriminate].
    intros [= <-]. exact (match_here_first _ _ _ Hm).
  - destruct (match_here label (String a s)) as [t |] eqn:Hm.
    + intros [= <-]. exact (match_here_first _ _ _ Hm).
    + exact IH.
Qed.

Lemma float_rstrip_cons (c : ascii) (s : string) :
  is_c_space c = false -> float_rstrip (String c s) = String c (float_rstrip s).
Proof.
  intros Hc. cbn [float_rstrip]. destruct (float_rstrip s); [rewrite Hc |]; reflexivity.
Qed.

(** A float literal that begins with a digit or a dot has no sign and is
    no NaN: it is a decimal, or the infinity a decimal too large for a
    binary64 rounds to. *)
Lemma py_float_unsigned (c : ascii) (t : string) (f : pyfloat) :
  is_digit_or_dot c = true -> py_float (String c t) = Ret f ->
  f = FInf false \/ exists m e, f = FDec false m e.
Proof.
  intros Hc. unfold py_float, float_strip.
  assert (Hsp : is_c_space c = false /\ lower c = c
                /\ c <> "+"%char /\ c <> "-"%char /\ c <> "i"%char /\ c <> "n"%char).
  { destruct c as [[] [] [] [] [] [] [] []]; vm_compute in Hc; try discriminate Hc;
      repeat split; (reflexivity || discriminate). }
  destruct Hsp as (Hsp & Hlow & Hplus & Hminus & Hi & Hn).
  cbn [float_lstrip]. rewrite Hsp, float_rstrip_cons by exact Hsp.
  set (r := float_rstrip t).
  assert (Hsign : (match String c r with
                   | String "+" r' => (false, r')
                   | String "-" r' => (true, r')
                   | _ => (false, String c r)
                   end) = (false, String c r)).
  { destruct c as [[] [] [] [] [] [] [] []]; try reflexivity; congruence. }
  rewrite Hsign. cbn [str_lower]. rewrite Hlow.
  assert (Hinf : String.eqb (String c (str_lower r)) "inf" = false
                 /\ String.eqb (String c (str_lower r)) "infinity" = false
                 /\ String.eqb (String c (str_lower r)) "nan" = false).
  { cbn [String.eqb].
    assert (Ei : Ascii.eqb c "i" = false) by (apply Ascii.eqb_neq; exact Hi).
    assert (En : Ascii.eqb c "n" = false) by (apply Ascii.eqb_neq; exact Hn).
    rewrite Ei, En. repeat split; reflexivity. }
  destruct Hinf as (-> & -> & ->). cbn [orb].
  destruct (floatnumber (String c r)) as [[m e] |]; [| discriminate].
  intros [= <-]. destruct (overflows m e); [left; reflexivity | right; eauto].
Qed.

(** X21. An epicenter read from a header never has a negative coordinate
    and never a NaN: each coordinate is the value of a decimal without
    sign, or the positive infinity that [float] makes of a decimal too
    large for a binary64. *)
Theorem parse_actual_epicenter_unsigned (header : string) (lon lat : pyfloat) :
  parse_actual_epicenter header = Ret (Some (lon, lat)) ->
  (lon = FInf false \/ exists m e, lon = FDec false m e)
  /\ (lat = FInf false \/ exists m e, lat = FDec false m e).
Proof.
  unfold parse_actual_epicenter.
  destruct (re_search_number "Lon:" header) as [tlon |] eqn:Elon; [| discriminate].
  destruct (re_search_number "Lat:" header) as [tlat |] eqn:Elat; [| discriminate].
  destruct (re_search_number_first _ _ _ Elon) as (c1 & t1 & -> & Hc1).
  destruct (re_search_number_first _ _ _ Elat) as (c2 & t2 & -> & Hc2).
  destruct (py_float (String c1 t1)) as [x | ex] eqn:Hx; cbn [bind]; [| discriminate].
  destruct (py_float (String c2 t2)) as [y | ey] eqn:Hy; cbn [bind]; [| discriminate].
  intros [= <- <-].
  split; [exact (py_float_unsigned c1 t1 x Hc1 Hx) | exact (py_float_unsigned c2 t2 y Hc2 Hy)].
Qed.

Lemma parse_actual_epicenter_unsigned_witness :
  parse_actual_epicenter "Header text Lon:120.57 Lat:23.23"
    = Ret (Some (FDec false 12057 (-2), FDec false 2323 (-2)))
  /\ (FDec false 12057 (-2) = FInf false
      \/ exists m e, FDec false 12057 (-2) = FDec false m e)
  /\ (FDec false 2323 (-2) = FInf false
      \/ exists m e, FDec false 2323 (-2) = FDec false m e).
Proof.
  assert (H : parse_actual_epicenter "Header text Lon:120.57 Lat:23.23"
              = Ret (Some (FDec false 12057 (-2), FDec false 2323 (-2))))
    by (vm_compute; reflexivity).
  split; [exact H |].
  exact (parse_actual_epicenter_unsigned _ _ _ H).
Defined.

End EpicenterFacts.

(** ** Distances *)

Section DistanceFacts.
Local Open Scope R_scope.

Lemma py_atan2_quadrant (y x : R) : 0 <= y -> 0 <= x -> py_atan2 y x <= PI / 2.
Proof.
  intros Hy Hx. unfold py_atan2. pose proof PI_RGT_0 as Hpi.
  destruct (total_order_T x 0) as [[Hlt | Heq] | Hgt]; [lra | |].
  - destruct (total_order_T y 0) as [[Hylt | Hyeq] | Hygt]; lra.
  - pose proof (atan_bound (y / x)) as [_ Hb]. lra.
Qed.

(** The angle of the point [(cos t, sin t)] of the first quadrant. *)
Lemma py_atan2_sin_cos (t : R) :
  0 <= t <= PI / 2 -> py_atan2 (sin t) (cos t) = t.
Proof.
  intros [H0 H1]. unfold py_atan2. pose proof PI_RGT_0 as Hpi.
  destruct (Rle_lt_or_eq_dec t (PI / 2) H1) as [Hlt | Heq].
  - assert (Hc : 0 < cos t) by (apply cos_gt_0; lra).
    destruct (total_order_T (cos t) 0) as [[Hneg | Hz] | Hpos]; [lra | lra |].
    fold (tan t). apply atan_tan. lra.
  - subst t. rewrite cos_PI2, sin_PI2.
    destruct (total_order_T 0 0) as [[Hneg | Hz] | Hpos]; [lra | | lra].
    destruct (total_order_T 1 0) as [[Hneg | Hz1] | Hpos]; [lra | lra | reflexivity].
Qed.

(** The central angle [haversine] computes from [a = sin^2 (theta / 2)]. *)
Lemma central_angle (theta : R) :
  0 <= theta <= PI ->
  2 * py_atan2 (sqrt (sin (theta / 2) ^ 2)) (sqrt (1 - sin (theta / 2) ^ 2)) = theta.
Proof.
  intros [H0 H1]. pose proof PI_RGT_0 as Hpi.
  assert (Hs : 0 <= sin (theta / 2)) by (apply sin_ge_0; lra).
  assert (Hc : 0 <= cos (theta / 2)) by (apply cos_ge_0; lra).
  rewrite (sqrt_pow2 _ Hs).
  replace (1 - sin (theta / 2) ^ 2) with (cos (theta / 2) ^ 2).
  2:{ pose proof (sin2_cos2 (theta / 2)) as H. unfold Rsqr in H. nra. }
  rewrite (sqrt_pow2 _ Hc), py_atan2_sin_cos by lra. lra.
Qed.

Lemma radians_plus (x y : R) : radians (x + y) = radians x + radians y.
Proof. unfold radians. ring. Qed.

Lemma radians_360 : radians 360 = 2 * PI.
Proof. unfold radians. field. Qed.

Lemma sin_sqr_shift (x : R) : sin (x + PI) ^ 2 = sin x ^ 2 /\ sin (x - PI) ^ 2 = sin x ^ 2.
Proof.
  split.
  - rewrite neg_sin. ring.
  - unfold Rminus. rewrite sin_plus, cos_neg, sin_neg, cos_PI, sin_PI. ring.
Qed.

Lemma cos_shift (x : R) : cos (x + 2 * PI) = cos x.
Proof. rewrite cos_plus, cos_2PI, sin_2PI. ring. Qed.

Lemma greatCircleDistanceKm_upper (lon1 lat1 lon2 lat2 : R) :
  greatCircleDistanceKm lon1 lat1 lon2 lat2 <= 6371 * PI.
Proof.
  unfold greatCircleDistanceKm. cbv zeta.
  match goal with |- _ * (2 * py_atan2 ?a ?b) <= _ =>
    pose proof (py_atan2_quadrant a b (sqrt_pos _) (sqrt_pos _)) end.
  lra.
Qed.

(** X1. A distance [haversine] returns lies between 0 and half the
    circumference, 6371 pi km. *)
Theorem haversine_range (lon1 lat1 lon2 lat2 d : R) :
  haversine lon1 lat1 lon2 lat2 = Ret d -> 0 <= d <= 6371 * PI.
Proof.
  intros Hd. rewrite haversine_returns in Hd. injection Hd as <-.
  split; [apply greatCircleDistanceKm_nonneg | apply greatCircleDistanceKm_upper].
Qed.

Lemma haversine_range_witness :
  haversine 120.53 23.28 121 23.5 = Ret (greatCircleDistanceKm 120.53 23.28 121 23.5)
  /\ 0 <= greatCircleDistanceKm 120.53 23.28 121 23.5 <= 6371 * PI.
Proof.
  pose proof (haversine_returns 120.53 23.28 121 23.5) as H.
  split; [exact H |].
  exact (haversine_range 120.53 23.28 121 23.5 _ H).
Defined.

Lemma greatCircleDistanceKm_full_turn (lon1 lat1 lon2 lat2 : R) :
  greatCircleDistanceKm (lon1 + 360) lat1 lon2 lat2
    = greatCircleDistanceKm lon1 lat1 lon2 lat2
  /\ greatCircleDistanceKm lon1 lat1 (lon2 + 360) lat2
     = greatCircleDistanceKm lon1 lat1 lon2 lat2
  /\ greatCircleDistanceKm lon1 (lat1 + 360) lon2 lat2
     = greatCircleDistanceKm lon1 lat1 lon2 lat2
  /\ greatCircleDistanceKm lon1 lat1 lon2 (lat2 + 360)
     = greatCircleDistanceKm lon1 lat1 lon2 lat2.
Proof.
  unfold greatCircleDistanceKm. cbv zeta.
  rewrite !radians_plus, radians_360.
  set (u1 := radians lon1). set (v1 := radians lat1).
  set (u2 := radians lon2). set (v2 := radians lat2).
  destruct (sin_sqr_shift ((u2 - u1) / 2)) as [Hup Hum].
  destruct (sin_sqr_shift ((v2 - v1) / 2)) as [Hvp Hvm].
  repeat split; f_equal.
  - replace ((u2 - (u1 + 2 * PI)) / 2) with ((u2 - u1) / 2 - PI) by lra.
    rewrite Hum. reflexivity.
  - replace ((u2 + 2 * PI - u1) / 2) with ((u2 - u1) / 2 + PI) by lra.
    rewrite Hup. reflexivity.
  - replace ((v2 - (v1 + 2 * PI)) / 2) with ((v2 - v1) / 2 - PI) by lra.
    rewrite Hvm, cos_shift. reflexivity.
  - replace ((v2 + 2 * PI - v1) / 2) with ((v2 - v1) / 2 + PI) by lra.
    rewrite Hvp, cos_shift. reflexivity.
Qed.

(** X2. A full turn added to a longitude or to a latitude, of either
    point, leaves the distance as it is, wherever [haversine] returns for
    the point as given and for the point moved. *)
Theorem haversine_full_turn (lon1 lat1 lon2 lat2 d : R) :
  haversine lon1 lat1 lon2 lat2 = Ret d ->
  (forall d', haversine (lon1 + 360) lat1 lon2 lat2 = Ret d' -> d' = d)
  /\ (forall d', haversine lon1 lat1 (lon2 + 360) lat2 = Ret d' -> d' = d)
  /\ (forall d', haversine lon1 (lat1 + 360) lon2 lat2 = Ret d' -> d' = d)
  /\ (forall d', haversine lon1 lat1 lon2 (lat2 + 360) = Ret d' -> d' = d).
Proof.
  intros Hd. rewrite haversine_returns in Hd. injection Hd as <-.
  destruct (greatCircleDistanceKm_full_turn lon1 lat1 lon2 lat2) as (H1 & H2 & H3 & H4).
  repeat split; intros d' Hd'; rewrite haversine_returns in Hd'; injection Hd' as <-;
    assumption.
Qed.

Lemma haversine_full_turn_witness :
  haversine 120.53 23.28 121 23.5 = Ret (greatCircleDistanceKm 120.53 23.28 121 23.5)
  /\ (forall d', haversine (120.53 + 360) 23.28 121 23.5 = Ret d' ->
                 d' = greatCircleDistanceKm 120.53 23.28 121 23.5)
  /\ (forall d', haversine 120.53 23.28 (121 + 360) 23.5 = Ret d' ->
                 d' = greatCircleDistanceKm 120.53 23.28 121 23.5)
  /\ (forall d', haversine 120.53 (23.28 + 360) 121 23.5 = Ret d' ->
                 d' = greatCircleDistanceKm 120.53 23.28 121 23.5)
  /\ (forall d', haversine 120.53 23.28 121 (23.5 + 360) = Ret d' ->
                 d' = greatCircleDistanceKm 120.53 23.28 121 23.5).
Proof.
  pose proof (haversine_returns 120.53 23.28 121 23.5) as H.
  split; [exact H |].
  exact (haversine_full_turn 120.53 23.28 121 23.5 _ H).
Defined.

Lemma radians_half_turn (delta : R) : 0 <= delta <= 180 -> 0 <= radians delta <= PI.
Proof.
  intros [H0 H1]. pose proof PI_RGT_0 as Hpi. unfold radians.
  split; [nra |]. replace PI with (180 * (PI / 180)) at 2 by field. nra.
Qed.

Lemma meridian_distance (lon lat delta : R) :
  0 <= delta <= 180 ->
  greatCircleDistanceKm lon lat lon (lat + delta) = 6371 * radians delta.
Proof.
  intros Hd. pose proof (radians_half_turn delta Hd) as Hr.
  unfold greatCircleDistanceKm. cbv zeta. rewrite !radians_plus.
  replace (radians lat + radians delta - radians lat) with (radians delta) by ring.
  replace ((radians lon - radians lon) / 2) with 0 by lra.
  rewrite sin_0.
  replace (sin (radians delta / 2) ^ 2
           + cos (radians lat) * cos (radians lat + radians delta) * 0 ^ 2)
    with (sin (radians delta / 2) ^ 2) by ring.
  rewrite central_angle by exact Hr. lra.
Qed.

Lemma equator_distance (lon delta : R) :
  0 <= delta <= 180 ->
  greatCircleDistanceKm lon 0 (lon + delta) 0 = 6371 * radians delta.
Proof.
  intros Hd. pose proof (radians_half_turn delta Hd) as Hr.
  unfold greatCircleDistanceKm. cbv zeta. rewrite !radians_plus.
  replace (radians lon + radians delta - radians lon) with (radians delta) by ring.
  replace ((radians 0 - radians 0) / 2) with 0 by lra.
  replace (radians 0) with 0 by (unfold radians; ring).
  rewrite sin_0, cos_0.
  replace (0 ^ 2 + 1 * 1 * sin (radians delta / 2) ^ 2)
    with (sin (radians delta / 2) ^ 2) by ring.
  rewrite central_angle by exact Hr. lra.
Qed.

(** X3. Along a meridian, and along the equator, [haversine] is the arc
    length: two points [delta] degrees apart, 0 <= delta <= 180, are
    6371 * radians delta km apart. *)
Theorem haversine_arc_length (lon lat delta : R) :
  0 <= delta <= 180 ->
  haversine lon lat lon (lat + delta) = Ret (6371 * radians delta)
  /\ haversine lon 0 (lon + delta) 0 = Ret (6371 * radians delta).
Proof.
  intros Hd. rewrite !haversine_returns.
  rewrite (meridian_distance lon lat delta Hd), (equator_distance lon delta Hd).
  split; reflexivity.
Qed.

Lemma haversine_arc_length_witness :
  0 <= 1 <= 180
  /\ haversine 120.53 23.28 120.53 (23.28 + 1) = Ret (6371 * radians 1)
  /\ haversine 120.53 0 (120.53 + 1) 0 = Ret (6371 * radians 1).
Proof.
  assert (H : 0 <= 1 <= 180) by lra.
  split; [exact H |].
  exact (haversine_arc_length 120.53 23.28 1 H).
Defined.

End DistanceFacts.

(** ** Predictions *)

Section PredictionFacts.
Local Open Scope R_scope.

Lemma slantDist_pos (h depth : R) : depth <> 0 -> 0 < slantDist h depth.
Proof.
  intros Hd. unfold slantDist. apply sqrt_lt_R0.
  pose proof (pow2_ge_0 h). assert (0 < depth ^ 2) by nra. lra.
Qed.

Lemma predict_pga_defined (sta_lon sta_lat epi_lon epi_lat depth mag : R) :
  depth <> 0 ->
  predict_pga sta_lon sta_lat epi_lon epi_lat depth mag =
    Ret (predictedPGA_spec
           (greatCircleDistanceKm epi_lon epi_lat sta_lon sta_lat) depth mag).
Proof.
  intros Hd. rewrite predict_pga_cases. cbv zeta.
  pose proof (slantDist_pos (greatCircleDistanceKm epi_lon epi_lat sta_lon sta_lat)
                depth Hd).
  destruct (Rlt_dec 0 _); [reflexivity | contradiction].
Qed.

Lemma predictedPGA_spec_pos (h depth mag : R) : 0 < predictedPGA_spec h depth mag.
Proof.
  unfold predictedPGA_spec.
  pose proof (exp_pos (1.533 * mag)).
  assert (0 < Rpower (slantDist h depth) (- 1.607)) by (unfold Rpower; apply exp_pos).
  apply Rmult_lt_0_compat; [nra | assumption].
Qed.

Lemma predictedPGV_spec_pos (h depth mag : R) : 0 < predictedPGV_spec h depth mag.
Proof.
  unfold predictedPGV_spec. cbv zeta.
  match goal with |- 0 < Rpower 10 ?e * _ => pose proof (Rpower10_pos e) end.
  nra.
Qed.

(** X4. For a station for which [haversine] returns, [predict_pgv]
    returns a positive value, and so does [predict_pga] for every depth
    other than 0: the predictions that [main] divides by are not zero. *)
Theorem predictions_positive (sta_lon sta_lat epi_lon epi_lat depth mag d : R) :
  haversine epi_lon epi_lat sta_lon sta_lat = Ret d ->
  (exists w : R,
     predict_pgv sta_lon sta_lat epi_lon epi_lat depth mag = Ret w /\ 0 < w)
  /\ (depth <> 0 ->
      exists v : R,
        predict_pga sta_lon sta_lat epi_lon epi_lat depth mag = Ret v /\ 0 < v).
Proof.
  intros _. split.
  - eexists. split; [apply predict_pgv_returns | apply predictedPGV_spec_pos].
  - intros Hd. eexists.
    split; [apply predict_pga_defined; exact Hd | apply predictedPGA_spec_pos].
Qed.

Lemma predictions_positive_witness :
  haversine 120.53 23.28 121 23.5 = Ret (greatCircleDistanceKm 120.53 23.28 121 23.5)
  /\ (exists w : R, predict_pgv 121 23.5 120.53 23.28 10 6.4 = Ret w /\ 0 < w)
  /\ (10 <> 0 ->
      exists v : R, predict_pga 121 23.5 120.53 23.28 10 6.4 = Ret v /\ 0 < v).
Proof.
  pose proof (haversine_returns 120.53 23.28 121 23.5) as H.
  split; [exact H |].
  exact (predictions_positive 121 23.5 120.53 23.28 10 6.4 _ H).
Defined.

(** X5. For a station for which [haversine] returns and a depth other
    than 0, a larger magnitude never gives a smaller predicted PGA. *)
Theorem predict_pga_increasing_in_magnitude
    (sta_lon sta_lat epi_lon epi_lat depth mag1 mag2 d : R) :
  haversine epi_lon epi_lat sta_lon sta_lat = Ret d ->
  depth <> 0 -> mag1 <= mag2 ->
  exists v1 v2 : R,
    predict_pga sta_lon sta_lat epi_lon epi_lat depth mag1 = Ret v1
    /\ predict_pga sta_lon sta_lat epi_lon epi_lat depth mag2 = Ret v2
    /\ v1 <= v2.
Proof.
  intros _ Hd Hm. do 2 eexists.
  split; [apply predict_pga_defined; exact Hd |].
  split; [apply predict_pga_defined; exact Hd |].
  unfold predictedPGA_spec.
  apply Rmult_le_compat_r; [unfold Rpower; left; apply exp_pos |].
  apply Rmult_le_compat_l; [lra |].
  apply exp_le_mono. lra.
Qed.

Lemma predict_pga_increasing_in_magnitude_witness :
  haversine 120.53 23.28 121 23.5 = Ret (greatCircleDistanceKm 120.53 23.28 121 23.5)
  /\ 10 <> 0 /\ 6.4 <= 7
  /\ exists v1 v2 : R,
       predict_pga 121 23.5 120.53 23.28 10 6.4 = Ret v1
       /\ predict_pga 121 23.5 120.53 23.28 10 7 = Ret v2
       /\ v1 <= v2.
Proof.
  pose proof (haversine_returns 120.53 23.28 121 23.5) as H.
  assert (H1 : 10 <> 0) by lra. assert (H2 : 6.4 <= 7) by lra.
  split; [exact H |]. split; [exact H1 |]. split; [exact H2 |].
  exact (predict_pga_increasing_in_magnitude 121 23.5 120.53 23.28 10 6.4 7 _ H H1 H2).
Defined.

(** X6. Station and epicenter can be exchanged: both predictions depend
    on the two points only through their distance, which is symmetric. *)
Theorem predictions_exchange (sta_lon sta_lat epi_lon epi_lat depth mag : R) :
  predict_pga sta_lon sta_lat epi_lon epi_lat depth mag
    = predict_pga epi_lon epi_lat sta_lon sta_lat depth mag
  /\ predict_pgv sta_lon sta_lat epi_lon epi_lat depth mag
     = predict_pgv epi_lon epi_lat sta_lon sta_lat depth mag.
Proof.
  rewrite !predict_pga_cases, !predict_pgv_returns. cbv zeta.
  rewrite (greatCircleDistanceKm_sym epi_lon epi_lat sta_lon sta_lat).
  split; reflexivity.
Qed.

(** X7. For a station for which [haversine] returns, the predicted PGA
    depends on the depth only through its absolute value and does not grow
    with it: of two depths, the first not 0, the one of larger absolute
    value gives the smaller or equal PGA. *)
Theorem predict_pga_decreasing_in_depth
    (sta_lon sta_lat epi_lon epi_lat depth1 depth2 mag d : R) :
  haversine epi_lon epi_lat sta_lon sta_lat = Ret d ->
  depth1 <> 0 -> Rabs depth1 <= Rabs depth2 ->
  exists v1 v2 : R,
    predict_pga sta_lon sta_lat epi_lon epi_lat depth1 mag = Ret v1
    /\ predict_pga sta_lon sta_lat epi_lon epi_lat depth2 mag = Ret v2
    /\ v2 <= v1
    /\ predict_pga sta_lon sta_lat epi_lon epi_lat (- depth1) mag = Ret v1.
Proof.
  intros _ Hd Habs.
  assert (Hd2 : depth2 <> 0).
  { intros ->. rewrite Rabs_R0 in Habs. pose proof (Rabs_pos_lt depth1 Hd). lra. }
  assert (Hd1' : - depth1 <> 0) by lra.
  do 2 eexists.
  split; [apply predict_pga_defined; exact Hd |].
  split; [apply predict_pga_defined; exact Hd2 |].
  set (h := greatCircleDistanceKm epi_lon epi_lat sta_lon sta_lat).
  split.
  - unfold predictedPGA_spec. apply Rmult_le_compat_l.
    + pose proof (exp_pos (1.533 * mag)). nra.
    + apply Rpower_neg_antitone; [apply slantDist_pos; exact Hd | | lra].
      unfold slantDist. apply sqrt_le_1_alt.
      apply Rsqr_le_abs_1 in Habs. unfold Rsqr in Habs. nra.
  - rewrite (predict_pga_defined _ _ _ _ _ _ Hd1'). fold h.
    unfold predictedPGA_spec, slantDist.
    replace ((- depth1) ^ 2) with (depth1 ^ 2) by ring. reflexivity.
Qed.

Lemma predict_pga_decreasing_in_depth_witness :
  haversine 120.53 23.28 121 23.5 = Ret (greatCircleDistanceKm 120.53 23.28 121 23.5)
  /\ 10 <> 0 /\ Rabs 10 <= Rabs 35
  /\ exists v1 v2 : R,
       predict_pga 121 23.5 120.53 23.28 10 6.4 = Ret v1
       /\ predict_pga 121 23.5 120.53 23.28 35 6.4 = Ret v2
       /\ v2 <= v1
       /\ predict_pga 121 23.5 120.53 23.28 (- 10) 6.4 = Ret v1.
Proof.
  pose proof (haversine_returns 120.53 23.28 121 23.5) as H.
  assert (H1 : 10 <> 0) by lra.
  assert (H2 : Rabs 10 <= Rabs 35).
  { rewrite !Rabs_right by lra. lra. }
  split; [exact H |]. split; [exact H1 |]. split; [exact H2 |].
  exact (predict_pga_decreasing_in_depth 121 23.5 120.53 23.28 10 35 6.4 _ H H1 H2).
Defined.

End PredictionFacts.

(** ** The classifier and the colour tables *)

Section ClassifierFacts.
Local Open Scope R_scope.
Local Open Scope string_scope.

(** The brackets of [get_predicted_intensity], one by one. *)
Lemma get_predicted_intensity_brackets (pga pgv : R) :
  let code := get_predicted_intensity pga pgv in
  (pga < 0.8 /\ code = "0")
  \/ (0.8 <= pga < 2.5 /\ code = "1")
  \/ (2.5 <= pga < 8 /\ code = "2")
  \/ (8 <= pga < 25 /\ code = "3")
  \/ (25 <= pga < 80 /\ code = "4")
  \/ (80 <= pga /\ pgv < 15 /\ code = "4")
  \/ (80 <= pga /\ 15 <= pgv < 30 /\ code = "5-")
  \/ (80 <= pga /\ 30 <= pgv < 50 /\ code = "5+")
  \/ (80 <= pga /\ 50 <= pgv < 80 /\ code = "6-")
  \/ (80 <= pga /\ 80 <= pgv < 140 /\ code = "6+")
  \/ (80 <= pga /\ 140 <= pgv /\ code = "7").
Proof.
  cbv zeta. unfold get_predicted_intensity, Rltb, Rleb.
  repeat match goal with
    | |- context [Rlt_dec ?a ?b] => destruct (Rlt_dec a b); try lra
    | |- context [Rle_dec ?a ?b] => destruct (Rle_dec a b); try lra
    end;
  cbn [andb];
  repeat (first [left; repeat split; (reflexivity || lra) | right]).
  all: repeat split; (reflexivity || lra).
Qed.

Ltac brackets pga pgv :=
  let H := fresh "B" in
  pose proof (get_predicted_intensity_brackets pga pgv) as H; cbv zeta in H;
  repeat destruct H as [H | H];
  decompose [and] H; clear H.

(** X8. The classifier is monotone: a larger pga or pgv never gives a
    lower code of the scale. *)
Theorem get_predicted_intensity_monotone (pga1 pgv1 pga2 pgv2 : R) :
  pga1 <= pga2 -> pgv1 <= pgv2 ->
  (intensity_rank (get_predicted_intensity pga1 pgv1)
   <= intensity_rank (get_predicted_intensity pga2 pgv2))%nat.
Proof.
  intros Ha Hv.
  brackets pga1 pgv1; brackets pga2 pgv2;
    match goal with
    | H1 : get_predicted_intensity pga1 pgv1 = _,
      H2 : get_predicted_intensity pga2 pgv2 = _ |- _ => rewrite H1, H2
    end;
    try lra; vm_compute; lia.
Qed.

Lemma get_predicted_intensity_monotone_witness :
  30 <= 95 /\ 4 <= 20
  /\ (intensity_rank (get_predicted_intensity 30 4)
      <= intensity_rank (get_predicted_intensity 95 20))%nat.
Proof.
  assert (H1 : 30 <= 95) by lra. assert (H2 : 4 <= 20) by lra.
  split; [exact H1 |]. split; [exact H2 |].
  exact (get_predicted_intensity_monotone 30 4 95 20 H1 H2).
Defined.

(** X9. A code of 5- or more is returned exactly when pga >= 80 and
    pgv >= 15; below pga 80 the pgv plays no part, and "0" is returned
    exactly when pga < 0.8. *)
Theorem get_predicted_intensity_strong (pga pgv pgv' : R) :
  (In (get_predicted_intensity pga pgv) ["5-"; "5+"; "6-"; "6+"; "7"]
     <-> 80 <= pga /\ 15 <= pgv)
  /\ (get_predicted_intensity pga pgv = "0" <-> pga < 0.8)
  /\ (pga < 80 -> get_predicted_intensity pga pgv = get_predicted_intensity pga pgv').
Proof.
  split; [| split].
  - brackets pga pgv;
      match goal with H : get_predicted_intensity pga pgv = _ |- _ => rewrite H end;
      (split; [intros Hin; cbn in Hin;
                 repeat (destruct Hin as [Hin | Hin]; try discriminate);
                 solve [contradiction | lra]
              | intros [? ?]; try lra; cbn; tauto]).
  - brackets pga pgv;
      match goal with H : get_predicted_intensity pga pgv = _ |- _ => rewrite H end;
      (split; [intros Heq; try discriminate; lra | intros ?; try lra; reflexivity]).
  - intros Hlow. brackets pga pgv; brackets pga pgv'; try lra; congruence.
Qed.

(** X10. Every code the classifier returns has its colour in
    [pred_intensity_color]: the default of the lookup and the colour of
    "?" are never used, and the colour is red exactly for pga >= 80 and
    pgv >= 15. *)
Theorem predicted_color_of_classified (pga pgv : R) :
  pred_intensity_color !! get_predicted_intensity pga pgv
    = Some (predicted_color (get_predicted_intensity pga pgv))
  /\ In (predicted_color (get_predicted_intensity pga pgv))
       ["black"; "blue"; "green"; "red"]
  /\ (predicted_color (get_predicted_intensity pga pgv) = "red"
      <-> 80 <= pga /\ 15 <= pgv).
Proof.
  brackets pga pgv;
    match goal with H : get_predicted_intensity pga pgv = _ |- _ => rewrite H end;
    (split; [vm_compute; reflexivity |]);
    (split; [vm_compute; tauto |]);
    (split; [intros Heq; vm_compute in Heq; try discriminate; lra
            | intros [? ?]; try lra; vm_compute; reflexivity]).
Qed.

(** X11. The two tables agree: every label of [obs_intensity_map] stands
    for a code of the scale other than "0", and its colour is the colour
    [pred_intensity_color] gives that code. *)
Theorem observed_table_consistent (label code color : string) :
  obs_intensity_map !! label = Some (code, color) ->
  In code intensity_codes
  /\ code <> "0"
  /\ pred_intensity_color !! code = Some color
  /\ observed_label label = (code, color).
Proof.
  intros H.
  assert (Hl : observed_label label = (code, color)).
  { unfold observed_label. rewrite H. reflexivity. }
  apply elem_of_list_to_map_2 in H.
  rewrite !elem_of_cons, elem_of_nil in H.
  repeat destruct H as [H | H]; try contradiction;
    injection H as -> -> ->;
    (split; [cbn; tauto |]);
    (split; [discriminate |]);
    (split; [vm_compute; reflexivity | exact Hl]).
Qed.

Lemma observed_table_consistent_witness :
  obs_intensity_map !! "6弱" = Some ("6-", "red")
  /\ In "6-" intensity_codes
  /\ "6-" <> "0"
  /\ pred_intensity_color !! "6-" = Some "red"
  /\ observed_label "6弱" = ("6-", "red").
Proof.
  assert (H : obs_intensity_map !! "6弱" = Some ("6-", "red")) by (vm_compute; reflexivity).
  split; [exact H |].
  exact (observed_table_consistent "6弱" "6-" "red" H).
Defined.

End ClassifierFacts.

(** ** The driver *)

Section DriverFacts.
Local Open Scope R_scope.

Lemma predict_station_defined (epi_lon epi_lat depth mag : R) (sta : R * R) :
  depth <> 0 ->
  exists pga pgv : R,
    predict_station epi_lon epi_lat depth mag sta
      = Ret (pga, pgv, get_predicted_intensity pga pgv)
    /\ 0 < pga /\ 0 < pgv.
Proof.
  intros Hd. destruct sta as [lon lat]. unfold predict_station.
  rewrite (predict_pga_defined _ _ _ _ _ _ Hd), predict_pgv_returns. cbn [bind].
  do 2 eexists. split; [reflexivity |].
  split; [apply predictedPGA_spec_pos | apply predictedPGV_spec_pos].
Qed.

Lemma predict_all_defined (epi_lon epi_lat depth mag : R) (stations : list (R * R)) :
  depth <> 0 ->
  exists out : list (R * R * string),
    predict_all epi_lon epi_lat depth mag stations = Ret out
    /\ Forall2 (fun sta fields =>
                  predict_station epi_lon epi_lat depth mag sta = Ret fields)
         stations out
    /\ Forall (fun fields : R * R * string =>
                 0 < fst (fst fields) /\ 0 < snd (fst fields)
                 /\ snd fields
                    = get_predicted_intensity (fst (fst fields)) (snd (fst fields)))
         out.
Proof.
  intros Hd. induction stations as [| sta rest IH].
  - exists []. repeat split; constructor.
  - destruct IH as (out & Hout & Hall & Hpos).
    destruct (predict_station_defined epi_lon epi_lat depth mag sta Hd)
      as (pga & pgv & Hsta & Hpga & Hpgv).
    exists ((pga, pgv, get_predicted_intensity pga pgv) :: out).
    cbn [predict_all]. rewrite Hsta. cbn [bind]. rewrite Hout. cbn [bind].
    split; [reflexivity |]. split.
    + constructor; assumption.
    + constructor; [| exact Hpos]. cbn [fst snd]. repeat split; assumption.
Qed.

(** X12. For a depth other than 0, as the 10 km of [main], and stations
    for each of which [haversine] returns, the loop over the stations does
    not raise: every station gets its three derived fields, in order, with
    a positive PGA and PGV and the code of the two. *)
Theorem predict_all_returns (epi_lon epi_lat depth mag : R) (stations : list (R * R)) :
  depth <> 0 ->
  Forall (fun sta => returns (haversine epi_lon epi_lat (fst sta) (snd sta))) stations ->
  exists out : list (R * R * string),
    predict_all epi_lon epi_lat depth mag stations = Ret out
    /\ Forall2 (fun sta fields =>
                  predict_station epi_lon epi_lat depth mag sta = Ret fields)
         stations out
    /\ Forall (fun fields : R * R * string =>
                 0 < fst (fst fields) /\ 0 < snd (fst fields)
                 /\ snd fields
                    = get_predicted_intensity (fst (fst fields)) (snd (fst fields)))
         out.
Proof.
  intros Hd _. apply predict_all_defined. exact Hd.
Qed.

Lemma stations_reachable (epi_lon epi_lat : R) (stations : list (R * R)) :
  Forall (fun sta => returns (haversine epi_lon epi_lat (fst sta) (snd sta))) stations.
Proof.
  apply Forall_forall. intros sta _. eexists. apply haversine_returns.
Qed.

Lemma predict_all_returns_witness :
  main_depth <> 0
  /\ Forall (fun sta => returns (haversine main_epi_lon main_epi_lat (fst sta) (snd sta)))
       [(121, 23.5); (120.53, 23.28)]
  /\ exists out : list (R * R * string),
       predict_all main_epi_lon main_epi_lat main_depth main_mag
         [(121, 23.5); (120.53, 23.28)] = Ret out
       /\ Forall2 (fun sta fields =>
                     predict_station main_epi_lon main_epi_lat main_depth main_mag sta
                       = Ret fields)
            [(121, 23.5); (120.53, 23.28)] out
       /\ Forall (fun fields : R * R * string =>
                    0 < fst (fst fields) /\ 0 < snd (fst fields)
                    /\ snd fields
                       = get_predicted_intensity (fst (fst fields)) (snd (fst fields)))
            out.
Proof.
  assert (H : main_depth <> 0) by (unfold main_depth; lra).
  pose proof (stations_reachable main_epi_lon main_epi_lat [(121, 23.5); (120.53, 23.28)])
    as Hs.
  split; [exact H |]. split; [exact Hs |].
  exact (predict_all_returns main_epi_lon main_epi_lat main_depth main_mag
           [(121, 23.5); (120.53, 23.28)] H Hs).
Defined.

Lemma error_percent_value (pred obs : R) :
  pred <> 0 -> error_percent pred obs = Ret ((obs - pred) / pred * 100).
Proof.
  intros Hp. unfold error_percent, py_div.
  destruct (Req_dec_T pred 0); [contradiction | reflexivity].
Qed.

(** X13. The error percentage raises [ZeroDivisionError] exactly for a
    prediction of 0. For a positive prediction it is 0 exactly when the
    observation equals it, positive exactly when the observation is
    larger, at least -100 exactly when the observation is not negative,
    and above 100 exactly when the observation is more than twice the
    prediction. *)
Theorem error_percent_cases (pred obs : R) :
  (error_percent pred obs = Raise ZeroDivisionError <-> pred = 0)
  /\ (0 < pred ->
      exists e : R,
        error_percent pred obs = Ret e
        /\ (e = 0 <-> obs = pred)
        /\ (0 < e <-> pred < obs)
        /\ (- 100 <= e <-> 0 <= obs)
        /\ (100 < e <-> 2 * pred < obs)).
Proof.
  split.
  - unfold error_percent, py_div. destruct (Req_dec_T pred 0) as [Hz | Hnz]; cbn [bind].
    + split; [intros _; exact Hz | reflexivity].
    + split; [discriminate | contradiction].
  - intros Hp. exists ((obs - pred) / pred * 100).
    split; [apply error_percent_value; lra |].
    assert (He : (obs - pred) / pred * 100 = (obs / pred - 1) * 100) by (field; lra).
    rewrite He.
    assert (Hq : obs = obs / pred * pred) by (field; lra).
    set (q := obs / pred) in *.
    repeat split; intros H; nra.
Qed.

(** X14. Lines 150 to 167 together: for a depth other than 0 and
    stations for each of which [haversine] returns, the predictions of all
    stations are computed and the error percentages against any list of
    observations are computed too, one for each station that has an
    observation; no division by zero occurs. *)
Theorem error_list_of_predictions
    (epi_lon epi_lat depth mag : R) (stations : list (R * R)) (observed : list R) :
  depth <> 0 ->
  Forall (fun sta => returns (haversine epi_lon epi_lat (fst sta) (snd sta))) stations ->
  exists (out : list (R * R * string)) (error_pga error_pgv : list R),
    predict_all epi_lon epi_lat depth mag stations = Ret out
    /\ error_list (map (fun f => fst (fst f)) out) observed = Ret error_pga
    /\ error_list (map (fun f => snd (fst f)) out) observed = Ret error_pgv
    /\ length error_pga = Nat.min (length stations) (length observed)
    /\ length error_pgv = Nat.min (length stations) (length observed).
Proof.
  intros Hd _.
  destruct (predict_all_defined epi_lon epi_lat depth mag stations Hd)
    as (out & Hout & Hall & Hpos).
  assert (Hlen : length out = length stations).
  { symmetry. eapply Forall2_length. exact Hall. }
  assert (Hgen : forall (g : R * R * string -> R) (l : list (R * R * string)) (obs : list R),
             Forall (fun f => 0 < g f) l ->
             exists es, error_list (map g l) obs = Ret es
                        /\ length es = Nat.min (length l) (length obs)).
  { intros g l. induction l as [| f l IH]; intros obs Hl.
    - exists []. split; reflexivity.
    - destruct obs as [| o obs].
      + exists []. split; reflexivity.
      + inversion Hl as [| ? ? Hf Hl']; subst.
        destruct (IH obs Hl') as (es & Hes & Hn).
        exists ((o - g f) / g f * 100 :: es).
        cbn [map error_list]. rewrite error_percent_value by lra. cbn [bind].
        rewrite Hes. cbn [bind]. split; [reflexivity |].
        cbn [length Nat.min]. rewrite Hn. reflexivity. }
  destruct (Hgen (fun f => fst (fst f)) out observed) as (ea & Hea & Hna).
  { eapply Forall_impl; [exact Hpos |]. cbn beta. intros f (H & _). exact H. }
  destruct (Hgen (fun f => snd (fst f)) out observed) as (ev & Hev & Hnv).
  { eapply Forall_impl; [exact Hpos |]. cbn beta. intros f (_ & H & _). exact H. }
  exists out, ea, ev. rewrite <- Hlen. repeat split; assumption.
Qed.

Lemma error_list_of_predictions_witness :
  main_depth <> 0
  /\ Forall (fun sta => returns (haversine main_epi_lon main_epi_lat (fst sta) (snd sta)))
       [(121, 23.5)]
  /\ exists (out : list (R * R * string)) (error_pga error_pgv : list R),
       predict_all main_epi_lon main_epi_lat main_depth main_mag [(121, 23.5)] = Ret out
       /\ error_list (map (fun f => fst (fst f)) out) [12.3] = Ret error_pga
       /\ error_list (map (fun f => snd (fst f)) out) [12.3] = Ret error_pgv
       /\ length error_pga = Nat.min (length [(121, 23.5)]) (length [12.3])
       /\ length error_pgv = Nat.min (length [(121, 23.5)]) (length [12.3]).
Proof.
  assert (H : main_depth <> 0) by (unfold main_depth; lra).
  pose proof (stations_reachable main_epi_lon main_epi_lat [(121, 23.5)]) as Hs.
  split; [exact H |]. split; [exact Hs |].
  exact (error_list_of_predictions main_epi_lon main_epi_lat main_depth main_mag
           [(121, 23.5)] [12.3] H Hs).
Defined.

Lemma fold_min_bounds (l : list R) (x : R) :
  let m := fold_left (fun m y => if Rlt_dec y m then y else m) l x in
  (forall y, In y (x :: l) -> m <= y) /\ In m (x :: l).
Proof.
  revert x. induction l as [| z l IH]; intros x; cbv zeta.
  - cbn. split; [intros y [<- | []]; lra | left; reflexivity].
  - cbn [fold_left]. destruct (Rlt_dec z x) as [Hlt | Hge].
    + destruct (IH z) as [Hle Hin]. cbv zeta in Hle, Hin. split.
      * intros y [<- | Hy]; [| apply Hle; exact Hy].
        pose proof (Hle z (or_introl eq_refl)). lra.
      * right. exact Hin.
    + destruct (IH x) as [Hle Hin]. cbv zeta in Hle, Hin. split.
      * intros y [<- | [<- | Hy]].
        -- apply Hle. left. reflexivity.
        -- pose proof (Hle x (or_introl eq_refl)). lra.
        -- apply Hle. right. exact Hy.
      * destruct Hin as [Hin | Hin]; [left; exact Hin | right; right; exact Hin].
Qed.

Lemma fold_max_bounds (l : list R) (x : R) :
  let m := fold_left (fun m y => if Rlt_dec m y then y else m) l x in
  (forall y, In y (x :: l) -> y <= m) /\ In m (x :: l).
Proof.
  revert x. induction l as [| z l IH]; intros x; cbv zeta.
  - cbn. split; [intros y [<- | []]; lra | left; reflexivity].
  - cbn [fold_left]. destruct (Rlt_dec x z) as [Hlt | Hge].
    + destruct (IH z) as [Hle Hin]. cbv zeta in Hle, Hin. split.
      * intros y [<- | Hy]; [| apply Hle; exact Hy].
        pose proof (Hle z (or_introl eq_refl)). lra.
      * right. exact Hin.
    + destruct (IH x) as [Hle Hin]. cbv zeta in Hle, Hin. split.
      * intros y [<- | [<- | Hy]].
        -- apply Hle. left. reflexivity.
        -- pose proof (Hle x (or_introl eq_refl)). lra.
        -- apply Hle. right. exact Hy.
      * destruct Hin as [Hin | Hin]; [left; exact Hin | right; right; exact Hin].
Qed.

(** X15. The bounds of the full-range plot: [ValueError] exactly when one
    of the two lists is empty, as both are when no station was accepted;
    otherwise the lower bound is the smallest and the upper bound the
    largest of all the values. *)
Theorem full_range_bounds (pred obs : list R) :
  (full_range pred obs = Raise ValueError <-> pred = [] \/ obs = [])
  /\ (pred <> [] -> obs <> [] ->
      exists lo hi : R,
        full_range pred obs = Ret (lo, hi)
        /\ In lo (pred ++ obs) /\ In hi (pred ++ obs)
        /\ (forall x, In x (pred ++ obs) -> lo <= x <= hi)).
Proof.
  split.
  - destruct pred as [| p pred]; [split; [intros _; left; reflexivity | reflexivity] |].
    destruct obs as [| o obs]; [split; [intros _; right; reflexivity | reflexivity] |].
    split; [discriminate | intros [H | H]; discriminate].
  - intros Hp Ho.
    destruct pred as [| p pred]; [contradiction |].
    destruct obs as [| o obs]; [contradiction |].
    unfold full_range, py_min_list, py_max_list. cbn [bind].
    destruct (fold_min_bounds pred p) as [Hm1 Hi1].
    destruct (fold_min_bounds obs o) as [Hm2 Hi2].
    destruct (fold_max_bounds pred p) as [HM1 HI1].
    destruct (fold_max_bounds obs o) as [HM2 HI2].
    cbv zeta in *.
    set (m1 := fold_left (fun m y => if Rlt_dec y m then y else m) pred p) in *.
    set (m2 := fold_left (fun m y => if Rlt_dec y m then y else m) obs o) in *.
    set (M1 := fold_left (fun m y => if Rlt_dec m y then y else m) pred p) in *.
    set (M2 := fold_left (fun m y => if Rlt_dec m y then y else m) obs o) in *.
    do 2 eexists. split; [reflexivity |].
    unfold py_min, py_max.
    split; [| split].
    + apply in_or_app. destruct (Rlt_dec m2 m1); [right | left]; assumption.
    + apply in_or_app. destruct (Rlt_dec M1 M2); [right | left]; assumption.
    + intros x Hx. apply in_app_or in Hx.
      destruct (Rlt_dec m2 m1), (Rlt_dec M1 M2), Hx as [Hx | Hx];
        first [ pose proof (Hm1 x Hx); pose proof (HM1 x Hx)
              | pose proof (Hm2 x Hx); pose proof (HM2 x Hx) ]; lra.
Qed.

End DriverFacts.

Section NearField.
Local Open Scope R_scope.

(** X23. Near the source the predicted PGV does not depend on the
    distance: for every station whose hypocentral distance less the
    long-term correction is at most 3, [x] is clamped to 3 and
    [predict_pgv] returns the same value,
    1.31 * 10^(0.58 mag + 0.0038 depth - 1.29 - log10 (3 + 0.0028 *
    10^(0.5 mag)) - 0.006). *)
Theorem predict_pgv_near_field
    (lon1 lat1 lon2 lat2 epi_lon epi_lat depth mag d1 d2 : R) :
  haversine epi_lon epi_lat lon1 lat1 = Ret d1 ->
  haversine epi_lon epi_lat lon2 lat2 = Ret d2 ->
  sqrt (depth ^ 2 + d1 ^ 2) - Rpower 10 (0.5 * mag - 1.85) / 2 <= 3 ->
  sqrt (depth ^ 2 + d2 ^ 2) - Rpower 10 (0.5 * mag - 1.85) / 2 <= 3 ->
  predict_pgv lon1 lat1 epi_lon epi_lat depth mag
    = Ret (Rpower 10 (0.58 * mag + 0.0038 * depth - 1.29
                      - log10 (3 + 0.0028 * Rpower 10 (0.5 * mag)) - 0.006) * 1.31)
  /\ predict_pgv lon2 lat2 epi_lon epi_lat depth mag
     = predict_pgv lon1 lat1 epi_lon epi_lat depth mag.
Proof.
  intros Hd1 Hd2 Hn1 Hn2.
  rewrite haversine_returns in Hd1, Hd2.
  injection Hd1 as Hd1. injection Hd2 as Hd2.
  rewrite !predict_pgv_returns, Hd1, Hd2.
  assert (Hplateau : forall d,
             sqrt (depth ^ 2 + d ^ 2) - Rpower 10 (0.5 * mag - 1.85) / 2 <= 3 ->
             predictedPGV_spec d depth mag
             = Rpower 10 (0.58 * mag + 0.0038 * depth - 1.29
                          - log10 (3 + 0.0028 * Rpower 10 (0.5 * mag)) - 0.006) * 1.31).
  { intros d Hn. unfold predictedPGV_spec. cbv zeta.
    replace 3.0 with 3 by lra. rewrite (Rmax_right _ 3 Hn).
    do 2 f_equal. lra. }
  rewrite (Hplateau d1 Hn1), (Hplateau d2 Hn2). split; reflexivity.
Qed.

Lemma predict_pgv_near_field_witness :
  haversine 120.53 23.28 120.53 23.28 = Ret 0
  /\ haversine 120.53 23.28 120.53 (23.28 + 0.01) = Ret (6371 * radians 0.01)
  /\ sqrt (10 ^ 2 + 0 ^ 2) - Rpower 10 (0.5 * 8 - 1.85) / 2 <= 3
  /\ sqrt (10 ^ 2 + (6371 * radians 0.01) ^ 2) - Rpower 10 (0.5 * 8 - 1.85) / 2 <= 3
  /\ predict_pgv 120.53 23.28 120.53 23.28 10 8
     = Ret (Rpower 10 (0.58 * 8 + 0.0038 * 10 - 1.29
                       - log10 (3 + 0.0028 * Rpower 10 (0.5 * 8)) - 0.006) * 1.31)
  /\ predict_pgv 120.53 (23.28 + 0.01) 120.53 23.28 10 8
     = predict_pgv 120.53 23.28 120.53 23.28 10 8.
Proof.
  assert (H1 : haversine 120.53 23.28 120.53 23.28 = Ret 0).
  { rewrite haversine_returns, greatCircleDistanceKm_same. reflexivity. }
  assert (H2 : haversine 120.53 23.28 120.53 (23.28 + 0.01) = Ret (6371 * radians 0.01)).
  { rewrite haversine_returns, meridian_distance by lra. reflexivity. }
  assert (HL : 100 <= Rpower 10 (0.5 * 8 - 1.85)).
  { replace 100 with (Rpower 10 2).
    - apply Rle_Rpower; lra.
    - replace 2 with (1 + 1) by lra. rewrite Rpower_plus, Rpower_1 by lra. lra. }
  assert (Hsq : forall d, 0 <= d <= 2 -> sqrt (10 ^ 2 + d ^ 2) <= 12).
  { intros d Hd. replace 12 with (sqrt (12 ^ 2)) by (apply sqrt_pow2; lra).
    apply sqrt_le_1_alt. nra. }
  assert (H3 : sqrt (10 ^ 2 + 0 ^ 2) - Rpower 10 (0.5 * 8 - 1.85) / 2 <= 3).
  { pose proof (Hsq 0). lra. }
  assert (H4 : sqrt (10 ^ 2 + (6371 * radians 0.01) ^ 2)
               - Rpower 10 (0.5 * 8 - 1.85) / 2 <= 3).
  { assert (Hd : 0 <= 6371 * radians 0.01 <= 2).
    { unfold radians. pose proof PI_RGT_0. pose proof PI_4. split; nra. }
    pose proof (Hsq _ Hd). lra. }
  split; [exact H1 |]. split; [exact H2 |]. split; [exact H3 |]. split; [exact H4 |].
  exact (predict_pgv_near_field 120.53 23.28 120.53 (23.28 + 0.01) 120.53 23.28 10 8
           0 (6371 * radians 0.01) H1 H2 H3 H4).
Defined.

End NearField.
